(** * RedisP/main.py: a Flask front end over a Redis store

    Shallow embedding of the twelve route handlers of [RedisP/main.py] and of
    the part of their environment they depend on: the Redis commands the
    handlers issue through the shared client [r], the [logging] calls, and
    [jsonify].

    Conventions.
    - A Python [str] is represented by its UTF-8 encoding, a [string] of
      8-bit characters, so [str.encode('utf-8')] (which redis-py applies to
      every [str] argument) is the identity and [bytes.decode('utf-8')] is
      the partial identity on well-formed UTF-8.
    - A handler runs against the store and the state of the link to it: the
      link either lets the one command of the request through, or makes the
      client call raise before the command is applied, or makes it raise
      after the store applied the command.
    - A JSON body is kept as a tree, not as text; a response is the body
      together with the HTTP status code. *)

From Stdlib Require Import ZArith Ascii String List Lia.
From Stdlib Require Import DecimalString DecimalZ DecimalPos.
From stdpp Require Import base option list gmap strings sorting.

Local Open Scope string_scope.
Local Open Scope Z_scope.

(** ** Text *)

Module Text.

Definition byte_of (c : ascii) : N := N_of_ascii c.

Definition between (lo hi : N) (c : ascii) : bool :=
  ((lo <=? byte_of c) && (byte_of c <=? hi))%N.

(** A continuation byte, [0x80..0xBF]. *)
Definition cont : ascii → bool := between 128 191.

(** Well-formed UTF-8 (the table of RFC 3629, which CPython's strict
    decoder follows: no overlong forms, no surrogates, nothing above
    U+10FFFF). *)
Fixpoint utf8_valid (s : string) : bool :=
  match s with
  | EmptyString => true
  | String c0 r0 =>
    if between 0 127 c0 then utf8_valid r0
    else if between 194 223 c0 then
      match r0 with
      | String c1 r1 => cont c1 && utf8_valid r1
      | _ => false
      end
    else if between 224 239 c0 then
      match r0 with
      | String c1 (String c2 r2) =>
        (if between 224 224 c0 then between 160 191 c1
         else if between 237 237 c0 then between 128 159 c1
         else cont c1)
        && cont c2 && utf8_valid r2
      | _ => false
      end
    else if between 240 244 c0 then
      match r0 with
      | String c1 (String c2 (String c3 r3)) =>
        (if between 240 240 c0 then between 144 191 c1
         else if between 244 244 c0 then between 128 143 c1
         else cont c1)
        && cont c2 && cont c3 && utf8_valid r3
      | _ => false
      end
    else false
  end.

(** [needle in hay] on Python strings. *)
Fixpoint str_in (needle hay : string) : bool :=
  String.prefix needle hay ||
  match hay with
  | EmptyString => false
  | String _ rest => str_in needle rest
  end.

(** [str(n)] for a Python [int]. *)
Definition str_of_int (n : Z) : string := NilZero.string_of_int (Z.to_int n).

(** The integer a byte string denotes for Redis (its [string2ll]): an
    optional minus sign and decimal digits in canonical form, so no plus
    sign, no leading zero, no ["-0"], no blanks. *)
Definition int_of_str (s : string) : option Z :=
  match NilZero.int_of_string s with
  | Some d =>
    let n := Z.of_int d in
    if String.eqb (str_of_int n) s then Some n else None
  | None => None
  end.

(** The value a route parameter of the default (string) converter can take:
    Werkzeug matches [[^/]+] on the path, decoded as UTF-8 text. *)
Definition path_param (s : string) : bool :=
  negb (String.eqb s "") && negb (str_in "/" s) && utf8_valid s.

End Text.

(** ** JSON bodies, responses and log lines *)

#[local] Set Warnings "-register-all".

Inductive json :=
| JNum (n : Z)
| JStr (s : string)
| JList (items : list json)
| JObj (fields : list (string * json)).

(** [jsonify] builds an object from its keyword arguments. *)
Definition jsonify (fields : list (string * json)) : json := JObj fields.

Fixpoint assoc (name : string) (fields : list (string * json)) : option json :=
  match fields with
  | [] => None
  | (k, v) :: rest => if String.eqb k name then Some v else assoc name rest
  end.

(** The member [name] of a JSON object. *)
Definition field (name : string) (body : json) : option json :=
  match body with
  | JObj fields => assoc name fields
  | _ => None
  end.

(** What a view function returns: a body, and the status code (200 when the
    source returns the body alone). *)
Record response := Response { body : json; code : Z }.

Inductive level := INFO | ERROR.

Record log_line := Log { lvl : level; msg : string }.

(** ** Exceptions *)

Inductive exn_class :=
| ResponseError        (* redis.exceptions.ResponseError: an error reply *)
| ConnectionError      (* redis.exceptions.ConnectionError *)
| TimeoutError         (* redis.exceptions.TimeoutError *)
| UnicodeDecodeError.  (* raised by bytes.decode *)

Record exn := Exn { cls : exn_class; text : string }.

(** [isinstance(e, redis.exceptions.ResponseError)]. *)
Definition is_ResponseError (e : exn) : bool :=
  match cls e with ResponseError => true | _ => false end.

(** [str(e)]. *)
Definition str (e : exn) : string := text e.

(** The error replies of the store that the commands below can produce,
    with the text redis-py gives the exception. *)
Definition WRONGTYPE : exn :=
  Exn ResponseError "WRONGTYPE Operation against a key holding the wrong kind of value".
Definition not_an_integer : exn :=
  Exn ResponseError "value is not an integer or out of range".
Definition would_overflow : exn :=
  Exn ResponseError "increment or decrement would overflow".
Definition not_a_float : exn :=
  Exn ResponseError "value is not a valid float".

(** ** The store *)

(** A key holds one of the five structures the routes use. Set members are
    unordered and unique; a sorted set maps each member to its score. Scores
    are doubles in the store; the routes only write integral ones
    ([<int:score>]) and the model keeps the integral value of the double. *)
Inductive rvalue :=
| RString (b : string)
| RList (items : list string)
| RSet (members : gset string)
| RHash (fields : gmap string string)
| RZSet (scores : gmap string Z).

(** The state of the link for the request in progress. [Up]: the command
    reaches the store and the reply comes back. [Down e]: the client call
    raises [e] and the store does not apply the command (server unreachable,
    an error reply that does not depend on the key, such as OOM or
    READONLY). [Lost e]: the store applies the command and the client call
    raises [e] all the same, because the reply does not come back
    (connection reset or time-out while reading it). *)
Inductive link :=
| Up
| Down (e : exn)
| Lost (e : exn).

(** ** Computations of a handler

    A computation reads the link, updates the store, appends to the log and
    returns a value or raises. *)

Inductive result (A : Type) :=
| Return (a : A)
| Raise (e : exn).
Arguments Return {A} a.
Arguments Raise {A} e.

Record outcome (A : Type) := Outcome {
  value : result A;
  store : gmap string rvalue;
  emitted : list log_line
}.
Arguments Outcome {A} value store emitted.
Arguments value {A} o.
Arguments store {A} o.
Arguments emitted {A} o.

Definition M (A : Type) : Type := link → gmap string rvalue → outcome A.

#[global] Instance M_ret : MRet M := λ A a _ db, Outcome (Return a) db [].

#[global] Instance M_bind : MBind M := λ A B k m lk db,
  let o := m lk db in
  match value o with
  | Return a =>
    let o' := k a lk (store o) in
    Outcome (value o') (store o') (emitted o ++ emitted o')
  | Raise e => Outcome (Raise e) (store o) (emitted o)
  end.

Definition raise {A} (e : exn) : M A := λ _ db, Outcome (Raise e) db [].

(** [try: body  except Exception as e: handler(e)]. *)
Definition try_except {A} (body : M A) (handler : exn → M A) : M A := λ lk db,
  let o := body lk db in
  match value o with
  | Return a => o
  | Raise e =>
    let o' := handler e lk (store o) in
    Outcome (value o') (store o') (emitted o ++ emitted o')
  end.

Definition logging_info (m : string) : M unit := λ _ db, Outcome (Return tt) db [Log INFO m].
Definition logging_error (m : string) : M unit := λ _ db, Outcome (Return tt) db [Log ERROR m].

(** [b.decode('utf-8')]; the text of the exception is shortened (CPython adds
    the offending byte, its position and the reason). *)
Definition decode (b : string) : M string :=
  if Text.utf8_valid b then mret b
  else raise (Exn UnicodeDecodeError "'utf-8' codec can't decode bytes").

(** Each element of a reply decoded in turn, as the list comprehensions of
    the view handlers do; the first failure raises. *)
Fixpoint decode_all (raw : list string) : M (list string) :=
  match raw with
  | [] => mret []
  | b :: rest =>
    t ← decode b;
    ts ← decode_all rest;
    mret (t :: ts)
  end.

(** ** The commands of the shared client [r]

    The store is the Redis server behind [redis.Redis(...)], outside the
    repository. Each command the handlers issue is modelled after the Redis
    command reference: what it does to the key, what it replies, and the
    error replies (WRONGTYPE, a value that is not a 64-bit integer, an
    increment that overflows, a score that is not a double). *)

Module Redis.

(** A command: answered by the store, or raised by the link before or
    after the store applied it. *)
Definition command {A} (answer : gmap string rvalue → result A * gmap string rvalue) : M A :=
  λ lk db,
    match lk with
    | Up => let '(a, db') := answer db in Outcome a db' []
    | Down e => Outcome (Raise e) db []
    | Lost e => Outcome (Raise e) (answer db).2 []
    end.

(** SET: the key takes the string, whatever it held. *)
Definition set (key value : string) : M bool :=
  command (λ db, (Return true, <[key := RString value]> db)).

(** GET: [None] for a missing key. *)
Definition get (key : string) : M (option string) :=
  command (λ db,
    match db !! key with
    | None => (Return None, db)
    | Some (RString b) => (Return (Some b), db)
    | Some _ => (Raise WRONGTYPE, db)
    end).

(** LPUSH: at the head; a missing key starts an empty list. *)
Definition lpush (key value : string) : M Z :=
  command (λ db,
    match db !! key with
    | None => (Return 1, <[key := RList [value]]> db)
    | Some (RList items) =>
      (Return (Z.of_nat (S (length items))), <[key := RList (value :: items)]> db)
    | Some _ => (Raise WRONGTYPE, db)
    end).

(** LRANGE key 0 -1: the whole list, head first. *)
Definition lrange_all (key : string) : M (list string) :=
  command (λ db,
    match db !! key with
    | None => (Return [], db)
    | Some (RList items) => (Return items, db)
    | Some _ => (Raise WRONGTYPE, db)
    end).

(** SADD: the reply counts the members that were new. *)
Definition sadd (key value : string) : M Z :=
  command (λ db,
    match db !! key with
    | None => (Return 1, <[key := RSet {[value]}]> db)
    | Some (RSet members) =>
      (Return (if decide (value ∈ members) then 0 else 1),
       <[key := RSet ({[value]} ∪ members)]> db)
    | Some _ => (Raise WRONGTYPE, db)
    end).

(** SMEMBERS: redis-py returns a Python set. *)
Definition smembers (key : string) : M (gset string) :=
  command (λ db,
    match db !! key with
    | None => (Return ∅, db)
    | Some (RSet members) => (Return members, db)
    | Some _ => (Raise WRONGTYPE, db)
    end).

(** HSET. *)
Definition hset (key fld value : string) : M Z :=
  command (λ db,
    match db !! key with
    | None => (Return 1, <[key := RHash {[fld := value]}]> db)
    | Some (RHash fields) =>
      (Return (match fields !! fld with Some _ => 0 | None => 1 end),
       <[key := RHash (<[fld := value]> fields)]> db)
    | Some _ => (Raise WRONGTYPE, db)
    end).

(** HGETALL: redis-py returns a dict. *)
Definition hgetall (key : string) : M (gmap string string) :=
  command (λ db,
    match db !! key with
    | None => (Return ∅, db)
    | Some (RHash fields) => (Return fields, db)
    | Some _ => (Raise WRONGTYPE, db)
    end).

(** The double nearest to an integer (ties to even), as an integer; [None]
    past the largest double, where the store rejects the score. *)
Definition double_of_int (n : Z) : option Z :=
  let a := Z.abs n in
  let bits := if a =? 0 then 0 else Z.log2 a + 1 in
  if bits <=? 53 then Some n
  else
    let sh := bits - 53 in
    let q := Z.shiftr a sh in
    let r := Z.land a (Z.ones sh) in
    let half := Z.shiftl 1 (sh - 1) in
    let q' := if (half <? r) || ((r =? half) && Z.odd q) then q + 1 else q in
    let m := Z.shiftl q' sh in
    if 2 ^ 1024 <=? m then None else Some (Z.sgn n * m).

(** ZADD key {member: score}. *)
Definition zadd (key member : string) (score : Z) : M Z :=
  command (λ db,
    match double_of_int score with
    | None => (Raise not_a_float, db)
    | Some sc =>
      match db !! key with
      | None => (Return 1, <[key := RZSet {[member := sc]}]> db)
      | Some (RZSet scores) =>
        (Return (match scores !! member with Some _ => 0 | None => 1 end),
         <[key := RZSet (<[member := sc]> scores)]> db)
      | Some _ => (Raise WRONGTYPE, db)
      end
    end).

(** The order of a sorted set: by score, then by member, bytewise. *)
Definition zset_leb (x y : string * Z) : bool :=
  (x.2 <? y.2) || ((x.2 =? y.2) && String.leb x.1 y.1).

Definition zset_le (x y : string * Z) : Prop := zset_leb x y = true.

#[global] Instance zset_le_dec x y : Decision (zset_le x y).
Proof. unfold zset_le. apply _. Defined.

(** ZRANGE key 0 -1 WITHSCORES: every member with its score, in order. *)
Definition zrange_all_withscores (key : string) : M (list (string * Z)) :=
  command (λ db,
    match db !! key with
    | None => (Return [], db)
    | Some (RZSet scores) => (Return (merge_sort zset_le (map_to_list scores)), db)
    | Some _ => (Raise WRONGTYPE, db)
    end).

Definition INT64_MAX : Z := 2 ^ 63 - 1.
Definition INT64_MIN : Z := - 2 ^ 63.

(** INCR: a missing key counts from 0; the value must be the canonical
    text of a signed 64-bit integer, and so must the result. *)
Definition incr (key : string) : M Z :=
  command (λ db,
    match db !! key with
    | None => (Return 1, <[key := RString (Text.str_of_int 1)]> db)
    | Some (RString b) =>
      match Text.int_of_str b with
      | Some n =>
        if (INT64_MIN <=? n) && (n <=? INT64_MAX) then
          if n =? INT64_MAX then (Raise would_overflow, db)
          else (Return (n + 1), <[key := RString (Text.str_of_int (n + 1))]> db)
        else (Raise not_an_integer, db)
      | None => (Raise not_an_integer, db)
      end
    | Some _ => (Raise WRONGTYPE, db)
    end).

End Redis.

(** ** The view functions of [main.py] *)

Definition endpoints : list string :=
  [ "/set/<key>/<value>";
    "/get/<key>";
    "/list/<key>/push/<value>";
    "/list/<key>";
    "/set/add/<key>/<value>";
    "/set/view/<key>";
    "/hash/<key>/<field>/<value>";
    "/hash/view/<key>";
    "/zset/<key>/<member>/<int:score>";
    "/zset/view/<key>";
    "/visits" ].

(** [/] *)
Definition home : M response :=
  mret (Response
          (jsonify [("message", JStr "Welcome to Flask + Redis Example!");
                    ("endpoints", JList (JStr <$> endpoints))])
          200).

(** [/set/<key>/<value>] *)
Definition set_value (key value : string) : M response :=
  try_except
    (Redis.set key value;;
     logging_info ("Key set: " +:+ key +:+ " -> " +:+ value);;
     mret (Response
             (jsonify [("status", JStr "success");
                       ("message", JStr ("Stored " +:+ key +:+ " = " +:+ value +:+ " in Redis"))])
             200))
    (λ e,
     logging_error ("Error setting value: " +:+ str e);;
     mret (Response (jsonify [("status", JStr "error"); ("message", JStr (str e))]) 500)).

(** [/get/<key>]; [if value:] fails for [None] and for [b''] alike. *)
Definition get_value (key : string) : M response :=
  try_except
    (value ← Redis.get key;
     match value with
     | Some (String _ _ as value) =>
       value ← decode value;
       logging_info ("Key fetched: " +:+ key +:+ " -> " +:+ value);;
       mret (Response
               (jsonify [("status", JStr "success"); ("key", JStr key); ("value", JStr value)])
               200)
     | Some EmptyString | None =>
       mret (Response
               (jsonify [("status", JStr "error");
                         ("message", JStr ("Key '" +:+ key +:+ "' not found"))])
               404)
     end)
    (λ e,
     logging_error ("Error fetching value: " +:+ str e);;
     mret (Response (jsonify [("status", JStr "error"); ("message", JStr (str e))]) 500)).

(** [/list/<key>/push/<value>] *)
Definition push_list (key value : string) : M response :=
  try_except
    (Redis.lpush key value;;
     logging_info ("Pushed to list " +:+ key +:+ ": " +:+ value);;
     mret (Response
             (jsonify [("status", JStr "success");
                       ("message", JStr ("Pushed " +:+ value +:+ " to list " +:+ key))])
             200))
    (λ e,
     logging_error ("Error pushing to list: " +:+ str e);;
     mret (Response (jsonify [("status", JStr "error"); ("message", JStr (str e))]) 500)).

(** [/list/<key>] *)
Definition get_list (key : string) : M response :=
  try_except
    (raw_values ← Redis.lrange_all key;
     values ← decode_all raw_values;
     match values with
     | [] =>
       mret (Response
               (jsonify [("status", JStr "empty");
                         ("message", JStr ("List " +:+ key +:+ " is empty or does not exist"))])
               404)
     | _ =>
       mret (Response
               (jsonify [("status", JStr "success"); ("key", JStr key);
                         ("values", JList (JStr <$> values))])
               200)
     end)
    (λ e,
     logging_error ("Error retrieving list " +:+ key +:+ ": " +:+ str e);;
     mret (Response (jsonify [("status", JStr "error"); ("message", JStr (str e))]) 500)).

(** [/set/add/<key>/<value>]; the first [except] clause takes the error
    replies of the store, the second every other exception. *)
Definition add_set_member (key value : string) : M response :=
  try_except
    (Redis.sadd key value;;
     logging_info ("Added to set " +:+ key +:+ ": " +:+ value);;
     mret (Response
             (jsonify [("status", JStr "success");
                       ("message", JStr ("Added " +:+ value +:+ " to set " +:+ key))])
             200))
    (λ e,
     if is_ResponseError e then
       if Text.str_in "WRONGTYPE" (str e) then
         mret (Response
                 (jsonify [("status", JStr "error");
                           ("message", JStr ("Key '" +:+ key +:+ "' exists but is not a set"))])
                 400)
       else
         logging_error ("Error adding to set: " +:+ str e);;
         mret (Response (jsonify [("status", JStr "error"); ("message", JStr (str e))]) 500)
     else
       logging_error ("Error adding to set: " +:+ str e);;
       mret (Response (jsonify [("status", JStr "error"); ("message", JStr (str e))]) 500)).

(** [/set/view/<key>]; the members come in the iteration order of the Python
    set, which [elements] fixes in the model. *)
Definition view_set (key : string) : M response :=
  try_except
    (members ← Redis.smembers key;
     if bool_decide (members = ∅) then
       mret (Response
               (jsonify [("status", JStr "empty");
                         ("message", JStr ("Set " +:+ key +:+ " is empty or does not exist"))])
               404)
     else
       decoded_members ← decode_all (elements members);
       mret (Response
               (jsonify [("status", JStr "success"); ("key", JStr key);
                         ("members", JList (JStr <$> decoded_members))])
               200))
    (λ e,
     logging_error ("Error retrieving set " +:+ key +:+ ": " +:+ str e);;
     mret (Response (jsonify [("status", JStr "error"); ("message", JStr (str e))]) 500)).

(** [/hash/<key>/<field>/<value>] *)
Definition set_hash_field (key fld value : string) : M response :=
  try_except
    (Redis.hset key fld value;;
     logging_info ("Hash set: " +:+ key +:+ "[" +:+ fld +:+ "] = " +:+ value);;
     mret (Response
             (jsonify [("status", JStr "success");
                       ("message", JStr ("Set " +:+ fld +:+ " = " +:+ value +:+ " in hash " +:+ key))])
             200))
    (λ e,
     logging_error ("Error setting hash field: " +:+ str e);;
     mret (Response (jsonify [("status", JStr "error"); ("message", JStr (str e))]) 500)).

(** The dict comprehension of [view_hash]: key, then value, of each item. *)
Fixpoint decode_items (items : list (string * string)) : M (list (string * json)) :=
  match items with
  | [] => mret []
  | (k, v) :: rest =>
    k ← decode k;
    v ← decode v;
    kvs ← decode_items rest;
    mret ((k, JStr v) :: kvs)
  end.

(** [/hash/view/<key>] *)
Definition view_hash (key : string) : M response :=
  try_except
    (hash_data ← Redis.hgetall key;
     if bool_decide (hash_data = ∅) then
       mret (Response
               (jsonify [("status", JStr "empty");
                         ("message", JStr ("Hash " +:+ key +:+ " is empty or does not exist"))])
               404)
     else
       decoded_hash ← decode_items (map_to_list hash_data);
       mret (Response
               (jsonify [("status", JStr "success"); ("key", JStr key);
                         ("fields", JObj decoded_hash)])
               200))
    (λ e,
     logging_error ("Error retrieving hash " +:+ key +:+ ": " +:+ str e);;
     mret (Response (jsonify [("status", JStr "error"); ("message", JStr (str e))]) 500)).

(** [/zset/<key>/<member>/<int:score>] *)
Definition add_zset_member (key member : string) (score : Z) : M response :=
  try_except
    (Redis.zadd key member score;;
     logging_info ("Added to sorted set " +:+ key +:+ ": " +:+ member +:+
                   " with score " +:+ Text.str_of_int score);;
     mret (Response
             (jsonify [("status", JStr "success");
                       ("message", JStr ("Added " +:+ member +:+ " with score " +:+
                                         Text.str_of_int score +:+ " to sorted set " +:+ key))])
             200))
    (λ e,
     logging_error ("Error adding to sorted set: " +:+ str e);;
     mret (Response (jsonify [("status", JStr "error"); ("message", JStr (str e))]) 500)).

(** The list comprehension of [view_zset]. The score is the float the client
    returns; the body holds the number it denotes. *)
Fixpoint format_items (items : list (string * Z)) : M (list json) :=
  match items with
  | [] => mret []
  | (member, score) :: rest =>
    member ← decode member;
    formatted ← format_items rest;
    mret (JObj [("member", JStr member); ("score", JNum score)] :: formatted)
  end.

(** [/zset/view/<key>] *)
Definition view_zset (key : string) : M response :=
  try_except
    (items ← Redis.zrange_all_withscores key;
     match items with
     | [] =>
       mret (Response
               (jsonify [("status", JStr "empty");
                         ("message", JStr ("Sorted set " +:+ key +:+ " is empty or does not exist"))])
               404)
     | _ =>
       formatted_items ← format_items items;
       mret (Response
               (jsonify [("status", JStr "success"); ("key", JStr key);
                         ("members", JList formatted_items)])
               200)
     end)
    (λ e,
     logging_error ("Error retrieving sorted set " +:+ key +:+ ": " +:+ str e);;
     mret (Response (jsonify [("status", JStr "error"); ("message", JStr (str e))]) 500)).

(** [/visits] *)
Definition visit_counter : M response :=
  try_except
    (visits ← Redis.incr "visit_count";
     logging_info ("Visit count updated: " +:+ Text.str_of_int visits);;
     mret (Response
             (jsonify [("message", JStr "Page visit counter"); ("total_visits", JNum visits)])
             200))
    (λ e,
     logging_error ("Error updating visit count: " +:+ str e);;
     mret (Response (jsonify [("status", JStr "error"); ("message", JStr (str e))]) 500)).

(** ** Requests

    A request is the route that matched together with its path parameters;
    the application calls the view function of the route. *)
Inductive request :=
| Home
| SetValue (key value : string)
| GetValue (key : string)
| PushList (key value : string)
| GetList (key : string)
| AddSetMember (key value : string)
| ViewSet (key : string)
| SetHashField (key fld value : string)
| ViewHash (key : string)
| AddZsetMember (key member : string) (score : Z)
| ViewZset (key : string)
| VisitCounter.

Definition view_function (rq : request) : M response :=
  match rq with
  | Home => home
  | SetValue key value => set_value key value
  | GetValue key => get_value key
  | PushList key value => push_list key value
  | GetList key => get_list key
  | AddSetMember key value => add_set_member key value
  | ViewSet key => view_set key
  | SetHashField key fld value => set_hash_field key fld value
  | ViewHash key => view_hash key
  | AddZsetMember key member score => add_zset_member key member score
  | ViewZset key => view_zset key
  | VisitCounter => visit_counter
  end.

(** One request served on a working link. *)
Definition serve (rq : request) (db : gmap string rvalue) : outcome response :=
  view_function rq Up db.


(** ** What the statements observe *)

(** The list a key holds for LPUSH and LRANGE; a missing key reads as the
    empty list. *)
Definition list_at (key : string) (db : gmap string rvalue) : option (list string) :=
  match db !! key with
  | None => Some []
  | Some (RList items) => Some items
  | Some _ => None
  end.

(** The set a key holds for SADD and SMEMBERS; a missing key reads as the
    empty set. *)
Definition set_at (key : string) (db : gmap string rvalue) : option (gset string) :=
  match db !! key with
  | None => Some ∅
  | Some (RSet members) => Some members
  | Some _ => None
  end.

(** The sorted set a key holds for ZADD and ZRANGE; a missing key reads as
    the empty one. *)
Definition zset_at (key : string) (db : gmap string rvalue) : option (gmap string Z) :=
  match db !! key with
  | None => Some ∅
  | Some (RZSet scores) => Some scores
  | Some _ => None
  end.

(** The integer a key holds for INCR; a missing key reads as 0. *)
Definition counter_at (key : string) (db : gmap string rvalue) : option Z :=
  match db !! key with
  | None => Some 0
  | Some (RString b) =>
    match Text.int_of_str b with
    | Some n =>
      if (Redis.INT64_MIN <=? n) && (n <=? Redis.INT64_MAX) then Some n else None
    | None => None
    end
  | Some _ => None
  end.

Definition is_set (x : rvalue) : bool :=
  match x with RSet _ => true | _ => false end.

(** The condition the first [except] clause of [add_set_member] singles
    out. *)
Definition wrong_type (e : exn) : bool :=
  is_ResponseError e && Text.str_in "WRONGTYPE" (str e).

(** One entry of the [members] that [view_zset] answers. *)
Definition format_item (item : string * Z) : json :=
  JObj [("member", JStr item.1); ("score", JNum item.2)].

(** The [total_visits] member of an answer, when there is one. *)
Definition total_visits (o : outcome response) : option Z :=
  match value o with
  | Return r =>
    match field "total_visits" (body r) with
    | Some (JNum n) => Some n
    | _ => None
    end
  | Raise _ => None
  end.

(** A body tagged with a [status] that is [success], [error] or [empty]. *)
Definition tagged (r : response) : bool :=
  match field "status" (body r) with
  | Some (JStr s) => String.eqb s "success" || String.eqb s "error" || String.eqb s "empty"
  | _ => false
  end.

(** The answers that carry no [status]: the one of [/], and the 200 of
    [/visits]. *)
Definition untagged (rq : request) (c : Z) : bool :=
  match rq with
  | Home => true
  | VisitCounter => c =? 200
  | _ => false
  end.

(** The view functions that log their success. *)
Definition logs_success (rq : request) : bool :=
  match rq with
  | SetValue _ _ | GetValue _ | PushList _ _ | AddSetMember _ _
  | SetHashField _ _ _ | AddZsetMember _ _ _ | VisitCounter => true
  | Home | GetList _ | ViewSet _ | ViewHash _ | ViewZset _ => false
  end.

(** The levels of the lines a request logs, by its route and the status code
    it answers. *)
Definition logged (rq : request) (c : Z) : list level :=
  if c =? 500 then [ERROR]
  else if (c =? 200) && logs_success rq then [INFO]
  else [].

(** [ensures m Q]: whatever the link and the store, the result of [m] and
    the lines it logs satisfy [Q]. *)
Definition ensures {A} (m : M A) (Q : result A → list log_line → Prop) : Prop :=
  ∀ lk db, Q (value (m lk db)) (emitted (m lk db)).

(** ** What the further statements observe *)

(** The store that requests served one after the other leave. *)
Definition run (rqs : list request) (db : gmap string rvalue) : gmap string rvalue :=
  foldl (λ d rq, store (serve rq d)) db rqs.

(** The hash a key holds for HSET and HGETALL; a missing key reads as the
    empty one. *)
Definition hash_at (key : string) (db : gmap string rvalue) : option (gmap string string) :=
  match db !! key with
  | None => Some ∅
  | Some (RHash fields) => Some fields
  | Some _ => None
  end.

(** One entry of the [fields] that [view_hash] answers. *)
Definition hash_item (kv : string * string) : string * json := (kv.1, JStr kv.2).

Inductive kind := KString | KList | KSet | KHash | KZSet.

Definition kind_of (x : rvalue) : kind :=
  match x with
  | RString _ => KString
  | RList _ => KList
  | RSet _ => KSet
  | RHash _ => KHash
  | RZSet _ => KZSet
  end.

Definition kind_eqb (a b : kind) : bool :=
  match a, b with
  | KString, KString | KList, KList | KSet, KSet | KHash, KHash | KZSet, KZSet => true
  | _, _ => false
  end.

(** The key the one command of a request names. *)
Definition key_of (rq : request) : option string :=
  match rq with
  | Home => None
  | SetValue key _ | GetValue key | PushList key _ | GetList key
  | AddSetMember key _ | ViewSet key | SetHashField key _ _ | ViewHash key
  | AddZsetMember key _ _ | ViewZset key => Some key
  | VisitCounter => Some "visit_count"
  end.

(** The structure the command of a request needs its key to hold; SET needs
    none. *)
Definition expects (rq : request) : option kind :=
  match rq with
  | Home | SetValue _ _ => None
  | GetValue _ | VisitCounter => Some KString
  | PushList _ _ | GetList _ => Some KList
  | AddSetMember _ _ | ViewSet _ => Some KSet
  | SetHashField _ _ _ | ViewHash _ => Some KHash
  | AddZsetMember _ _ _ | ViewZset _ => Some KZSet
  end.

(** The requests whose command only reads. *)
Definition reads (rq : request) : bool :=
  match rq with
  | Home | GetValue _ | GetList _ | ViewSet _ | ViewHash _ | ViewZset _ => true
  | _ => false
  end.

(** The requests whose command gives the key a value that does not depend
    on how often it is issued. *)
Definition repeatable (rq : request) : bool :=
  match rq with
  | SetValue _ _ | AddSetMember _ _ | SetHashField _ _ _ | AddZsetMember _ _ _ => true
  | _ => false
  end.

(** The status codes the paths of each view function return. *)
Definition codes (rq : request) : list Z :=
  match rq with
  | Home => [200]
  | SetValue _ _ | PushList _ _ | SetHashField _ _ _ | AddZsetMember _ _ _
  | VisitCounter => [200; 500]
  | GetValue _ | GetList _ | ViewSet _ | ViewHash _ | ViewZset _ => [200; 404; 500]
  | AddSetMember _ _ => [200; 400; 500]
  end.

(** The [status] member that goes with a status code. *)
Definition status_of (rq : request) (c : Z) : option json :=
  if untagged rq c then None
  else if c =? 200 then Some (JStr "success")
  else if c =? 404 then
    match rq with
    | GetValue _ => Some (JStr "error")
    | _ => Some (JStr "empty")
    end
  else Some (JStr "error").

(** [moves R m]: the store [m] leaves is related by [R] to the one it
    found. *)
Definition moves {A} (R : relation (gmap string rvalue)) (m : M A) : Prop :=
  ∀ lk db, R db (store (m lk db)).

(** The keys other than [key] hold the same in both stores. *)
Definition same_elsewhere (key : option string) (db db' : gmap string rvalue) : Prop :=
  ∀ k, key ≠ Some k → db' !! k = db !! k.

(** ** Routing

    The rules are the arguments of the [@app.route] decorators. Werkzeug
    matches the path segment by segment: a static segment of a rule is tried
    before a parameter, so [/set/view/<key>] takes the paths
    [/set/view/...] of three segments and [/set/<key>/<value>] the other
    paths [/set/.../...]; a parameter of the default converter matches a
    non-empty segment, [<int:score>] a segment of digits (the ASCII digits
    here). The path is the text Werkzeug matches on, after decoding. *)

(** The segments of a path, the text between its slashes. *)
Fixpoint split_slash (s : string) : list string :=
  match s with
  | EmptyString => [""]
  | String c rest =>
    if Ascii.eqb c "/" then "" :: split_slash rest
    else
      match split_slash rest with
      | seg :: segs => String c seg :: segs
      | [] => [String c ""]
      end
  end.

Definition segments (path : string) : option (list string) :=
  match path with
  | String c rest => if Ascii.eqb c "/" then Some (split_slash rest) else None
  | EmptyString => None
  end.

(** What the default converter matches. *)
Definition param (s : string) : bool := negb (String.eqb s "").

Definition digit_of (c : ascii) : option Z :=
  let n := Z.of_N (N_of_ascii c) in
  if (48 <=? n) && (n <=? 57) then Some (n - 48) else None.

Fixpoint digits_value (acc : Z) (s : string) : option Z :=
  match s with
  | EmptyString => Some acc
  | String c rest =>
    match digit_of c with
    | Some d => digits_value (10 * acc + d) rest
    | None => None
    end
  end.

(** What [<int:score>] matches, and the [int] it passes on. *)
Definition int_param (s : string) : option Z :=
  if param s then digits_value 0 s else None.

(** The view function and the arguments a list of segments selects. *)
Definition dispatch (segs : list string) : option request :=
  match segs with
  | [a] =>
    if String.eqb a "" then Some Home
    else if String.eqb a "visits" then Some VisitCounter
    else None
  | [a; b] =>
    if negb (param b) then None
    else if String.eqb a "get" then Some (GetValue b)
    else if String.eqb a "list" then Some (GetList b)
    else None
  | [a; b; c] =>
    if negb (param b && param c) then None
    else if String.eqb a "set" then
      if String.eqb b "view" then Some (ViewSet c) else Some (SetValue b c)
    else if String.eqb a "hash" then
      if String.eqb b "view" then Some (ViewHash c) else None
    else if String.eqb a "zset" then
      if String.eqb b "view" then Some (ViewZset c) else None
    else None
  | [a; b; c; d] =>
    if negb (param b && param c && param d) then None
    else if String.eqb a "list" then
      if String.eqb c "push" then Some (PushList b d) else None
    else if String.eqb a "set" then
      if String.eqb b "add" then Some (AddSetMember c d) else None
    else if String.eqb a "hash" then Some (SetHashField b c d)
    else if String.eqb a "zset" then
      match int_param d with
      | Some score => Some (AddZsetMember b c score)
      | None => None
      end
    else None
  | _ => None
  end.

(** The request a path makes; [None] when no rule matches and no view
    function runs. *)
Definition route (path : string) : option request :=
  match segments path with
  | Some segs => dispatch segs
  | None => None
  end.

(** A path served on a working link. *)
Definition serve_path (path : string) (db : gmap string rvalue) : option (outcome response) :=
  match route path with
  | Some rq => Some (serve rq db)
  | None => None
  end.

(** The members of the two bodies that carry no [status]. *)
Definition untagged_members (rq : request) : list string :=
  match rq with
  | Home => ["message"; "endpoints"]
  | _ => ["message"; "total_visits"]
  end.

(** The one call to the store a view function makes, its reply dropped. *)
Definition store_call (rq : request) : M () :=
  match rq with
  | Home => mret ()
  | SetValue key value => Redis.set key value;; mret ()
  | GetValue key => Redis.get key;; mret ()
  | PushList key value => Redis.lpush key value;; mret ()
  | GetList key => Redis.lrange_all key;; mret ()
  | AddSetMember key value => Redis.sadd key value;; mret ()
  | ViewSet key => Redis.smembers key;; mret ()
  | SetHashField key fld value => Redis.hset key fld value;; mret ()
  | ViewHash key => Redis.hgetall key;; mret ()
  | AddZsetMember key member score => Redis.zadd key member score;; mret ()
  | ViewZset key => Redis.zrange_all_withscores key;; mret ()
  | VisitCounter => Redis.incr "visit_count";; mret ()
  end.

(** * Properties *)

(** ** Text and decoding *)

Lemma int_of_str_of_int n : Text.int_of_str (Text.str_of_int n) = Some n.
Proof.
  unfold Text.int_of_str, Text.str_of_int.
  rewrite NilZero.isi.
  - rewrite DecimalZ.of_to, String.eqb_refl. reflexivity.
  - destruct n; simpl; try discriminate.
    intros [= H]. exact (Unsigned.to_uint_nonnil _ H).
  - destruct n; simpl; try discriminate.
    intros [= H]. exact (Unsigned.to_uint_nonnil _ H).
Qed.

(** Only the canonical text of an integer denotes it. *)
Lemma int_of_str_canonical s n : Text.int_of_str s = Some n → s = Text.str_of_int n.
Proof.
  unfold Text.int_of_str.
  destruct (NilZero.int_of_string s) as [d|]; [|discriminate].
  destruct (String.eqb_spec (Text.str_of_int (Z.of_int d)) s) as [E|]; [|discriminate].
  intros [= <-]. symmetry. exact E.
Qed.

Lemma path_param_nonempty s : Text.path_param s = true → s ≠ "".
Proof.
  unfold Text.path_param. intros H ->. discriminate H.
Qed.

Lemma path_param_text s : Text.path_param s = true → Text.utf8_valid s = true.
Proof.
  unfold Text.path_param. intros H.
  apply andb_true_iff in H as [_ H]. exact H.
Qed.

Lemma decode_text b lk db :
  Text.utf8_valid b = true → decode b lk db = Outcome (Return b) db [].
Proof. unfold decode. intros ->. reflexivity. Qed.

Lemma decode_all_text l lk db :
  Forall (λ b, Text.utf8_valid b = true) l →
  decode_all l lk db = Outcome (Return l) db [].
Proof.
  induction 1 as [|b l Hb _ IH]; [reflexivity|].
  cbn [decode_all]. unfold mbind, M_bind.
  rewrite decode_text by exact Hb. cbn.
  rewrite IH. reflexivity.
Qed.

Lemma format_items_text items lk db :
  Forall (λ item, Text.utf8_valid item.1 = true) items →
  format_items items lk db = Outcome (Return (format_item <$> items)) db [].
Proof.
  induction 1 as [|[m sc] items Hm _ IH]; [reflexivity|].
  cbn [format_items]. unfold mbind, M_bind.
  rewrite decode_text by exact Hm. cbn.
  rewrite IH. reflexivity.
Qed.

(** Decoding logs nothing. *)
Lemma silent_decode_all raw lk db : emitted (decode_all raw lk db) = [].
Proof.
  revert db. induction raw as [|b raw IH]; intros db; [reflexivity|].
  cbn [decode_all]. unfold mbind, M_bind, decode.
  destruct (Text.utf8_valid b); [|reflexivity]. cbn.
  specialize (IH db).
  destruct (decode_all raw lk db) as [[ts|e] db1 l]; cbn in *; subst; reflexivity.
Qed.

Lemma silent_decode_items items lk db : emitted (decode_items items lk db) = [].
Proof.
  revert db. induction items as [|[k v] items IH]; intros db; [reflexivity|].
  cbn [decode_items]. unfold mbind, M_bind, decode.
  destruct (Text.utf8_valid k); [|reflexivity]. cbn.
  destruct (Text.utf8_valid v); [|reflexivity]. cbn.
  specialize (IH db).
  destruct (decode_items items lk db) as [[ts|e] db1 l]; cbn in *; subst; reflexivity.
Qed.

Lemma silent_format_items items lk db : emitted (format_items items lk db) = [].
Proof.
  revert db. induction items as [|[m sc] items IH]; intros db; [reflexivity|].
  cbn [format_items]. unfold mbind, M_bind, decode.
  destruct (Text.utf8_valid m); [|reflexivity]. cbn.
  specialize (IH db).
  destruct (format_items items lk db) as [[ts|e] db1 l]; cbn in *; subst; reflexivity.
Qed.

(** ** Rules for [ensures] *)

Section Ensures.

Context {A B : Type}.
Implicit Types (Q : result A → list log_line → Prop).

Lemma ensures_ret (a : A) Q : Q (Return a) [] → ensures (mret a) Q.
Proof. intros H lk db. exact H. Qed.

Lemma ensures_bind (m : M B) (k : B → M A) Q :
  ensures m (λ r l,
    match r with
    | Return b => ensures (k b) (λ r' l', Q r' (l ++ l')%list)
    | Raise e => Q (Raise e) l
    end) →
  ensures (m ≫= k) Q.
Proof.
  intros H lk db. specialize (H lk db).
  unfold mbind, M_bind. destruct (m lk db) as [[b|e] db1 l]; cbn in *.
  - apply H.
  - exact H.
Qed.

Lemma ensures_try (body : M A) (handler : exn → M A) Q :
  ensures body (λ r l,
    match r with
    | Return a => Q (Return a) l
    | Raise e => ensures (handler e) (λ r' l', Q r' (l ++ l')%list)
    end) →
  ensures (try_except body handler) Q.
Proof.
  intros H lk db. specialize (H lk db).
  unfold try_except. destruct (body lk db) as [[a|e] db1 l]; cbn in *.
  - exact H.
  - apply H.
Qed.

(** A command logs nothing, whatever it answers. *)
Lemma ensures_command (answer : gmap string rvalue → result A * gmap string rvalue) Q :
  (∀ r, Q r []) → ensures (Redis.command answer) Q.
Proof.
  intros H lk db. unfold Redis.command.
  destruct lk; [destruct (answer db)| |]; apply H.
Qed.

End Ensures.

Lemma ensures_log_info m (Q : result unit → list log_line → Prop) :
  Q (Return tt) [Log INFO m] → ensures (logging_info m) Q.
Proof. intros H lk db. exact H. Qed.

Lemma ensures_log_error m (Q : result unit → list log_line → Prop) :
  Q (Return tt) [Log ERROR m] → ensures (logging_error m) Q.
Proof. intros H lk db. exact H. Qed.

Lemma ensures_decode b (Q : result string → list log_line → Prop) :
  (∀ r, Q r []) → ensures (decode b) Q.
Proof. intros H lk db. unfold decode. destruct (Text.utf8_valid b); apply H. Qed.

Lemma ensures_decode_all raw (Q : result (list string) → list log_line → Prop) :
  (∀ r, Q r []) → ensures (decode_all raw) Q.
Proof. intros H lk db. rewrite silent_decode_all. apply H. Qed.

Lemma ensures_decode_items items (Q : result (list (string * json)) → list log_line → Prop) :
  (∀ r, Q r []) → ensures (decode_items items) Q.
Proof. intros H lk db. rewrite silent_decode_items. apply H. Qed.

Lemma ensures_format_items items (Q : result (list json) → list log_line → Prop) :
  (∀ r, Q r []) → ensures (format_items items) Q.
Proof. intros H lk db. rewrite silent_format_items. apply H. Qed.

(** One rule, by the head of the computation. *)
Ltac ensures_step :=
  lazymatch goal with
  | |- ensures (mbind _ _) _ => apply ensures_bind
  | |- ensures (try_except _ _) _ => apply ensures_try
  | |- ensures (mret _) _ => apply ensures_ret
  | |- ensures (Redis.command _) _ => apply ensures_command; intros [?|?]
  | |- ensures (logging_info _) _ => apply ensures_log_info
  | |- ensures (logging_error _) _ => apply ensures_log_error
  | |- ensures (decode _) _ => apply ensures_decode; intros [?|?]
  | |- ensures (decode_all _) _ => apply ensures_decode_all; intros [?|?]
  | |- ensures (decode_items _) _ => apply ensures_decode_items; intros [?|?]
  | |- ensures (format_items _) _ => apply ensures_format_items; intros [?|?]
  | |- ensures (match ?x with _ => _ end) _ => destruct x
  end; cbn beta iota.

(** Every path of every view function, one goal each. *)
Ltac every_path rq :=
  destruct rq; cbn [view_function];
  unfold home, set_value, get_value, push_list, get_list, add_set_member, view_set,
    set_hash_field, view_hash, add_zset_member, view_zset, visit_counter,
    Redis.set, Redis.get, Redis.lpush, Redis.lrange_all, Redis.sadd, Redis.smembers,
    Redis.hset, Redis.hgetall, Redis.zadd, Redis.zrange_all_withscores, Redis.incr;
  repeat ensures_step.

(** ** Every route *)

(** No exception leaves a view function: each request is answered. *)
Lemma always_answers (rq : request) (lk : link) (db : gmap string rvalue) :
  ∃ r, value (view_function rq lk db) = Return r.
Proof.
  revert lk db. change (ensures (view_function rq) (λ r _, ∃ resp, r = Return resp)).
  every_path rq; eexists; reflexivity.
Qed.

(** C8, as the code has it. Every answer of every route is a JSON object with
    a status code; on all routes but two its [status] is [success], [error]
    or [empty]; the answer of [/] is the object of [message] and
    [endpoints], the 200 answer of [/visits] the object of [message] and
    [total_visits], and neither has a [status] member. *)
Theorem responses_tagged (rq : request) (lk : link) (db : gmap string rvalue) :
  ∃ r fields, value (view_function rq lk db) = Return r ∧
       body r = JObj fields ∧
       if untagged rq (code r)
       then fields.*1 = untagged_members rq ∧ field "status" (body r) = None
       else tagged r = true.
Proof.
  revert lk db.
  change (ensures (view_function rq) (λ r _, ∃ resp fields, r = Return resp ∧
            body resp = JObj fields ∧
            if untagged rq (code resp)
            then fields.*1 = untagged_members rq ∧ field "status" (body resp) = None
            else tagged resp = true)).
  every_path rq; eexists _, _; (split; [reflexivity|]); (split; [reflexivity|]);
    first [reflexivity | split; reflexivity].
Qed.

(** C8 as stated fails on [/]: the answer is 200 and its body has a
    [message] and the [endpoints], and no [status]. *)
Lemma home_untagged :
  (∃ r, value (serve Home ∅) = Return r ∧ code r = 200 ∧
        field "status" (body r) = None) ∧
  ¬ (∃ r, value (serve Home ∅) = Return r ∧ tagged r = true).
Proof.
  split.
  - eexists. split; [reflexivity|]. split; reflexivity.
  - intros [r [Hr Ht]]. injection Hr as <-. discriminate Ht.
Qed.

(** C9, as the code has it. A request logs at most one line: one at level
    ERROR when it is answered 500; one at level INFO when it is answered 200
    by a view function that writes to the store or by [get_value]; none when
    it is answered 400 or 404, none on [/], and none on the 200 answers of
    the four view routes of lists, sets, hashes and sorted sets. *)
Theorem log_lines (rq : request) (lk : link) (db : gmap string rvalue) :
  ∃ r, value (view_function rq lk db) = Return r ∧
       lvl <$> emitted (view_function rq lk db) = logged rq (code r).
Proof.
  revert lk db.
  change (ensures (view_function rq) (λ r l, ∃ resp, r = Return resp ∧
            lvl <$> l = logged rq (code resp))).
  every_path rq; eexists; (split; [reflexivity|]); reflexivity.
Qed.

(** C9 as stated fails on a successful read of a list: answered 200, and no
    line is logged. *)
Lemma get_list_logs_nothing :
  let db : gmap string rvalue := {[ "L" := RList ["x"] ]} in
  (∃ r, value (serve (GetList "L") db) = Return r ∧ code r = 200) ∧
  emitted (serve (GetList "L") db) = [] ∧
  length (emitted (serve (GetList "L") db)) ≠ 1%nat.
Proof.
  intros db. split; [eexists; split; reflexivity|].
  split; [reflexivity|]. discriminate.
Qed.

(** ** Scalars: [/set/<key>/<value>] and [/get/<key>] *)

Lemma serve_set_value key v db :
  serve (SetValue key v) db =
  Outcome
    (Return (Response
               (jsonify [("status", JStr "success");
                         ("message", JStr ("Stored " +:+ key +:+ " = " +:+ v +:+ " in Redis"))])
               200))
    (<[key := RString v]> db)
    [Log INFO ("Key set: " +:+ key +:+ " -> " +:+ v)].
Proof. reflexivity. Qed.

Lemma serve_get_value key v db :
  db !! key = Some (RString v) → v ≠ "" → Text.utf8_valid v = true →
  serve (GetValue key) db =
  Outcome
    (Return (Response (jsonify [("status", JStr "success"); ("key", JStr key); ("value", JStr v)]) 200))
    db
    [Log INFO ("Key fetched: " +:+ key +:+ " -> " +:+ v)].
Proof.
  intros Hk Hne Hv. destruct v as [|c v]; [done|].
  unfold serve, view_function, get_value, try_except, mbind, M_bind, Redis.get, Redis.command.
  rewrite Hk. cbn [value store emitted].
  rewrite decode_text by exact Hv. reflexivity.
Qed.

(** Once [set_value] has run on [k] and a value [v] that the parameter
    [<value>] can carry, and as long as what the store holds at [k] is
    unchanged, [get_value] on [k] answers 200 with a body whose [value]
    member is [v]. *)
Lemma set_then_get (k v : string) (db db' : gmap string rvalue) :
  Text.path_param v = true →
  db' !! k = store (serve (SetValue k v) db) !! k →
  ∃ r, value (serve (GetValue k) db') = Return r ∧
       code r = 200 ∧ field "value" (body r) = Some (JStr v).
Proof.
  intros Hv Hk.
  rewrite serve_set_value in Hk. cbn [store] in Hk.
  rewrite lookup_insert_eq in Hk.
  rewrite (serve_get_value k v db' Hk (path_param_nonempty v Hv) (path_param_text v Hv)).
  eexists. split; [reflexivity|]. split; reflexivity.
Qed.

Lemma set_then_get_witness :
  Text.path_param "1" = true ∧
  ∃ r, value (serve (GetValue "a") (store (serve (SetValue "a" "1") ∅))) = Return r ∧
       code r = 200 ∧ field "value" (body r) = Some (JStr "1").
Proof.
  split; [reflexivity|].
  apply (set_then_get "a" "1" ∅); reflexivity.
Defined.

(** *** The paths of the two routes *)

Lemma no_slash_cons c s :
  Text.str_in "/" (String c s) = false → Ascii.eqb c "/" = false ∧ Text.str_in "/" s = false.
Proof.
  cbn [Text.str_in String.prefix].
  destruct (ascii_dec "/" c) as [<-|Hc].
  - destruct s; discriminate.
  - intros H. split; [|exact H].
    apply Ascii.eqb_neq. congruence.
Qed.

Lemma split_no_slash s : Text.str_in "/" s = false → split_slash s = [s].
Proof.
  induction s as [|c s IH]; [reflexivity|].
  intros [Hc Hs]%no_slash_cons. cbn [split_slash]. rewrite Hc, (IH Hs). reflexivity.
Qed.

Lemma split_no_slash_app s t :
  Text.str_in "/" s = false → split_slash (s +:+ String "/" t) = s :: split_slash t.
Proof.
  induction s as [|c s IH]; [reflexivity|].
  intros [Hc Hs]%no_slash_cons.
  change (String c s +:+ String "/" t) with (String c (s +:+ String "/" t)).
  cbn [split_slash]. rewrite Hc, (IH Hs). reflexivity.
Qed.

Lemma path_param_no_slash s : Text.path_param s = true → Text.str_in "/" s = false.
Proof.
  unfold Text.path_param. intros [[_ H]%andb_true_iff _]%andb_true_iff.
  apply negb_true_iff, H.
Qed.

Lemma path_param_param s : Text.path_param s = true → param s = true.
Proof.
  unfold Text.path_param, param. intros [[H _]%andb_true_iff _]%andb_true_iff. exact H.
Qed.

(** [/set/<k>/<v>] reaches [set_value] with the key [k], unless [k] is
    [view]. *)
Lemma route_set (k v : string) :
  Text.path_param k = true → Text.path_param v = true → k ≠ "view" →
  route ("/set/" +:+ k +:+ "/" +:+ v) = Some (SetValue k v).
Proof.
  intros Hk Hv Hne.
  change ("/set/" +:+ k +:+ "/" +:+ v)
    with (String "/" ("set" +:+ String "/" (k +:+ String "/" v))).
  unfold route, segments. cbn [Ascii.eqb Bool.eqb].
  rewrite (split_no_slash_app "set") by reflexivity.
  rewrite (split_no_slash_app k) by (apply path_param_no_slash, Hk).
  rewrite (split_no_slash v) by (apply path_param_no_slash, Hv).
  unfold dispatch.
  rewrite (path_param_param k Hk), (path_param_param v Hv).
  apply String.eqb_neq in Hne. rewrite Hne. reflexivity.
Qed.

(** [/get/<k>] reaches [get_value] with the key [k]. *)
Lemma route_get (k : string) :
  Text.path_param k = true → route ("/get/" +:+ k) = Some (GetValue k).
Proof.
  intros Hk.
  change ("/get/" +:+ k) with (String "/" ("get" +:+ String "/" k)).
  unfold route, segments. cbn [Ascii.eqb Bool.eqb].
  rewrite (split_no_slash_app "get") by reflexivity.
  rewrite (split_no_slash k) by (apply path_param_no_slash, Hk).
  unfold dispatch. rewrite (path_param_param k Hk). reflexivity.
Qed.

(** C1, as the code has it. For every key [k] other than [view] and every
    value [v] (each a non-empty text without a slash), [/set/<k>/<v>] runs
    [set_value], and as long as what the store holds at [k] is unchanged,
    [/get/<k>] answers 200 with a body whose [value] member is [v]. The paths
    [/set/view/<v>] belong to the route [/set/view/<key>]. *)
Theorem set_then_get_paths (k v : string) (db : gmap string rvalue) :
  Text.path_param k = true → Text.path_param v = true → k ≠ "view" →
  ∃ o, serve_path ("/set/" +:+ k +:+ "/" +:+ v) db = Some o ∧
       ∀ db', db' !! k = store o !! k →
         ∃ o' r, serve_path ("/get/" +:+ k) db' = Some o' ∧
                 value o' = Return r ∧
                 code r = 200 ∧ field "value" (body r) = Some (JStr v).
Proof.
  intros Hk Hv Hne. unfold serve_path.
  rewrite (route_set k v Hk Hv Hne), (route_get k Hk).
  eexists. split; [reflexivity|]. intros db' Hdb'.
  destruct (set_then_get k v db db' Hv Hdb') as [r Hr].
  eauto.
Qed.

Lemma set_then_get_paths_witness :
  Text.path_param "a" = true ∧ Text.path_param "1" = true ∧ "a" ≠ "view" ∧
  ∃ o, serve_path ("/set/" +:+ "a" +:+ "/" +:+ "1") ∅ = Some o ∧
       ∀ db', db' !! "a" = store o !! "a" →
         ∃ o' r, serve_path ("/get/" +:+ "a") db' = Some o' ∧
                 value o' = Return r ∧
                 code r = 200 ∧ field "value" (body r) = Some (JStr "1").
Proof.
  split; [reflexivity|]. split; [reflexivity|]. split; [discriminate|].
  apply (set_then_get_paths "a" "1" ∅); [reflexivity|reflexivity|discriminate].
Defined.

(** C1 as stated fails at the key [view]: [/set/view/x] is a path of the
    route [/set/view/<key>], so it runs [view_set] on the key [x] and sets
    nothing, and [/get/view] then answers 404. *)
Lemma set_view_is_view_set :
  route "/set/view/x" = Some (ViewSet "x") ∧
  (∃ o o' r, serve_path "/set/view/x" ∅ = Some o ∧
             serve_path "/get/view" (store o) = Some o' ∧
             value o' = Return r ∧ code r = 404) ∧
  ¬ (∃ o o' r, serve_path "/set/view/x" ∅ = Some o ∧
               serve_path "/get/view" (store o) = Some o' ∧
               value o' = Return r ∧
               code r = 200 ∧ field "value" (body r) = Some (JStr "x")).
Proof.
  split; [reflexivity|]. split.
  - eexists _, _, _. split; [reflexivity|]. split; [reflexivity|]. split; reflexivity.
  - intros (o & o' & r & Ho & Ho' & Hr & Hc & _).
    injection Ho as <-. injection Ho' as <-. injection Hr as <-. discriminate Hc.
Qed.

(** C10. A key that holds the empty string is reported as missing: the
    handler tests the fetched value for truth, so [b''] takes the branch of
    [None] and [/get/k] answers 404, not 200 with an empty [value]. *)
Theorem get_empty_string_not_found (k : string) (db : gmap string rvalue) :
  db !! k = Some (RString "") →
  value (serve (GetValue k) db) =
  Return (Response
            (jsonify [("status", JStr "error");
                      ("message", JStr ("Key '" +:+ k +:+ "' not found"))])
            404).
Proof.
  intros Hk.
  unfold serve, view_function, get_value, try_except, mbind, M_bind, Redis.get, Redis.command.
  rewrite Hk. reflexivity.
Qed.

Lemma get_empty_string_not_found_witness :
  ({[ "k" := RString "" ]} : gmap string rvalue) !! "k" = Some (RString "") ∧
  value (serve (GetValue "k") {[ "k" := RString "" ]}) =
  Return (Response
            (jsonify [("status", JStr "error"); ("message", JStr "Key 'k' not found")])
            404).
Proof.
  split; [reflexivity|].
  apply (get_empty_string_not_found "k" {[ "k" := RString "" ]}). reflexivity.
Defined.

(** A missing key is reported the same way. *)
Lemma get_missing_not_found (k : string) (db : gmap string rvalue) :
  db !! k = None →
  value (serve (GetValue k) db) =
  Return (Response
            (jsonify [("status", JStr "error");
                      ("message", JStr ("Key '" +:+ k +:+ "' not found"))])
            404).
Proof.
  intros Hk.
  unfold serve, view_function, get_value, try_except, mbind, M_bind, Redis.get, Redis.command.
  rewrite Hk. reflexivity.
Qed.

(** ** Lists: [/list/<key>/push/<value>] and [/list/<key>] *)

Lemma list_at_inv key db items :
  list_at key db = Some items →
  (db !! key = None ∧ items = []) ∨ db !! key = Some (RList items).
Proof.
  unfold list_at. destruct (db !! key) as [[]|]; intros [= <-]; auto.
Qed.

Lemma serve_push_list key v items db :
  list_at key db = Some items →
  serve (PushList key v) db =
  Outcome
    (Return (Response
               (jsonify [("status", JStr "success");
                         ("message", JStr ("Pushed " +:+ v +:+ " to list " +:+ key))])
               200))
    (<[key := RList (v :: items)]> db)
    [Log INFO ("Pushed to list " +:+ key +:+ ": " +:+ v)].
Proof.
  intros [[Hk ->]|Hk]%list_at_inv;
    unfold serve, view_function, push_list, try_except, mbind, M_bind,
      Redis.lpush, Redis.command;
    rewrite Hk; reflexivity.
Qed.

Lemma push_list_at key v items db :
  list_at key db = Some items →
  list_at key (store (serve (PushList key v) db)) = Some (v :: items).
Proof.
  intros Hk. rewrite (serve_push_list key v items db Hk). cbn [store].
  unfold list_at. rewrite lookup_insert_eq. reflexivity.
Qed.

Lemma serve_get_list key c items db :
  list_at key db = Some (c :: items) →
  Forall (λ b, Text.utf8_valid b = true) (c :: items) →
  serve (GetList key) db =
  Outcome
    (Return (Response
               (jsonify [("status", JStr "success"); ("key", JStr key);
                         ("values", JList (JStr <$> c :: items))])
               200))
    db [].
Proof.
  intros [[_ [=]]|Hk]%list_at_inv Hv.
  unfold serve, view_function, get_list, try_except, mbind, M_bind,
    Redis.lrange_all, Redis.command.
  rewrite Hk. cbn [value store emitted].
  rewrite decode_all_text by exact Hv. reflexivity.
Qed.

(** C7. Reading a list that is empty or does not exist answers 404 with
    status [empty]. *)
Theorem get_list_empty (k : string) (db : gmap string rvalue) :
  list_at k db = Some [] →
  value (serve (GetList k) db) =
  Return (Response
            (jsonify [("status", JStr "empty");
                      ("message", JStr ("List " +:+ k +:+ " is empty or does not exist"))])
            404).
Proof.
  intros [[Hk _]|Hk]%list_at_inv;
    unfold serve, view_function, get_list, try_except, mbind, M_bind,
      Redis.lrange_all, Redis.command;
    rewrite Hk; reflexivity.
Qed.

Lemma get_list_empty_witness :
  list_at "L" ∅ = Some [] ∧
  value (serve (GetList "L") ∅) =
  Return (Response
            (jsonify [("status", JStr "empty");
                      ("message", JStr "List L is empty or does not exist")])
            404).
Proof.
  split; [reflexivity|].
  apply (get_list_empty "L" ∅). reflexivity.
Defined.

(** C4. Pushes prepend: on a list [L] that starts empty, pushing [x], then
    [y], and reading [L] back answers the values [y; x]. *)
Theorem push_push_read (L x y : string) (db : gmap string rvalue) :
  list_at L db = Some [] →
  Text.path_param x = true → Text.path_param y = true →
  let db1 := store (serve (PushList L x) db) in
  let db2 := store (serve (PushList L y) db1) in
  value (serve (GetList L) db2) =
  Return (Response
            (jsonify [("status", JStr "success"); ("key", JStr L);
                      ("values", JList [JStr y; JStr x])])
            200).
Proof.
  intros HL Hx Hy db1 db2.
  assert (H2 : list_at L db2 = Some [y; x]).
  { subst db2 db1. apply push_list_at, push_list_at, HL. }
  rewrite (serve_get_list L y [x] db2 H2); [reflexivity|].
  repeat constructor; auto using path_param_text.
Qed.

Lemma push_push_read_witness :
  list_at "L" ∅ = Some [] ∧ Text.path_param "x" = true ∧ Text.path_param "y" = true ∧
  value (serve (GetList "L")
           (store (serve (PushList "L" "y") (store (serve (PushList "L" "x") ∅))))) =
  Return (Response
            (jsonify [("status", JStr "success"); ("key", JStr "L");
                      ("values", JList [JStr "y"; JStr "x"])])
            200).
Proof.
  repeat (split; [reflexivity|]).
  apply (push_push_read "L" "x" "y" ∅); reflexivity.
Defined.

(** ** Sets: [/set/add/<key>/<value>] and [/set/view/<key>] *)

Lemma set_at_inv key db members :
  set_at key db = Some members →
  (db !! key = None ∧ members = ∅) ∨ db !! key = Some (RSet members).
Proof.
  unfold set_at. destruct (db !! key) as [[]|]; intros [= <-]; auto.
Qed.

Lemma serve_add_set_member key v members db :
  set_at key db = Some members →
  serve (AddSetMember key v) db =
  Outcome
    (Return (Response
               (jsonify [("status", JStr "success");
                         ("message", JStr ("Added " +:+ v +:+ " to set " +:+ key))])
               200))
    (<[key := RSet ({[v]} ∪ members)]> db)
    [Log INFO ("Added to set " +:+ key +:+ ": " +:+ v)].
Proof.
  intros [[Hk ->]|Hk]%set_at_inv;
    unfold serve, view_function, add_set_member, try_except, mbind, M_bind,
      Redis.sadd, Redis.command;
    rewrite Hk; [|reflexivity].
  rewrite (right_id_L ∅ (∪)). reflexivity.
Qed.

(** C3. On [/set/add/<key>/<value>], a key that holds a structure other than
    a set is answered 400 with an error body, and every other error of the
    store call is answered 500. *)
Theorem add_set_member_errors (k v : string) (db : gmap string rvalue) :
  (∀ x, db !! k = Some x → is_set x = false →
     value (serve (AddSetMember k v) db) =
     Return (Response
               (jsonify [("status", JStr "error");
                         ("message", JStr ("Key '" +:+ k +:+ "' exists but is not a set"))])
               400)) ∧
  (∀ lk e, value (Redis.sadd k v lk db) = Raise e → wrong_type e = false →
     value (add_set_member k v lk db) =
     Return (Response (jsonify [("status", JStr "error"); ("message", JStr (str e))]) 500)).
Proof.
  split.
  - intros x Hk Hx.
    unfold serve, view_function, add_set_member, try_except, mbind, M_bind,
      Redis.sadd, Redis.command.
    rewrite Hk. destruct x; try discriminate Hx; reflexivity.
  - intros lk e He Hw.
    unfold add_set_member, try_except, mbind, M_bind.
    destruct (Redis.sadd k v lk db) as [val st em]. cbn in He. subst val.
    unfold wrong_type in Hw. cbn.
    destruct (is_ResponseError e); [|reflexivity].
    cbn in Hw. rewrite Hw. reflexivity.
Qed.

Lemma add_set_member_errors_witness :
  (let db := store (serve (SetValue "k" "v") ∅) in
   db !! "k" = Some (RString "v") ∧ is_set (RString "v") = false ∧
   value (serve (AddSetMember "k" "m") db) =
   Return (Response
             (jsonify [("status", JStr "error");
                       ("message", JStr "Key 'k' exists but is not a set")])
             400)) ∧
  (let e := Exn ConnectionError "Connection refused" in
   value (Redis.sadd "k" "m" (Down e) ∅) = Raise e ∧ wrong_type e = false ∧
   value (add_set_member "k" "m" (Down e) ∅) =
   Return (Response
             (jsonify [("status", JStr "error"); ("message", JStr "Connection refused")])
             500)).
Proof.
  split.
  - repeat (split; [reflexivity|]).
    apply (proj1 (add_set_member_errors "k" "m" (store (serve (SetValue "k" "v") ∅)))
             (RString "v")); reflexivity.
  - repeat (split; [reflexivity|]).
    apply (proj2 (add_set_member_errors "k" "m" ∅)
             (Down (Exn ConnectionError "Connection refused"))
             (Exn ConnectionError "Connection refused")); reflexivity.
Defined.

(** The store call of [add_set_member] raises what the link raises, or
    WRONGTYPE on a key that holds something else than a set. *)
Lemma sadd_raises key v lk db e :
  value (Redis.sadd key v lk db) = Raise e →
  lk = Down e ∨ lk = Lost e ∨
  (lk = Up ∧ e = WRONGTYPE ∧ ∃ x, db !! key = Some x ∧ is_set x = false).
Proof.
  unfold Redis.sadd, Redis.command.
  destruct lk as [|e'|e']; cbn.
  - destruct (db !! key) as [x|] eqn:Hk; [|discriminate].
    destruct x; cbn; intros [= <-]; right; right; eauto.
  - intros [= ->]. left. reflexivity.
  - intros [= ->]. right. left. reflexivity.
Qed.

Lemma add_set_member_at key v members db :
  set_at key db = Some members →
  set_at key (store (serve (AddSetMember key v) db)) = Some ({[v]} ∪ members).
Proof.
  intros Hk. rewrite (serve_add_set_member key v members db Hk). cbn [store].
  unfold set_at. rewrite lookup_insert_eq. reflexivity.
Qed.

(** Adding the same member again changes nothing more. *)
Lemma add_set_member_iter key v members db (n : nat) :
  set_at key db = Some members →
  set_at key (Nat.iter (S n) (λ d, store (serve (AddSetMember key v) d)) db)
  = Some ({[v]} ∪ members).
Proof.
  intros Hk. induction n as [|n IH].
  - cbn [Nat.iter]. apply add_set_member_at, Hk.
  - rewrite Nat.iter_succ, (add_set_member_at key v _ _ IH).
    rewrite (assoc_L (∪)), (idemp_L (∪)). reflexivity.
Qed.

Lemma serve_view_set key members db :
  set_at key db = Some members → members ≠ ∅ →
  (∀ x, x ∈ members → Text.utf8_valid x = true) →
  serve (ViewSet key) db =
  Outcome
    (Return (Response
               (jsonify [("status", JStr "success"); ("key", JStr key);
                         ("members", JList (JStr <$> elements members))])
               200))
    db [].
Proof.
  intros [[_ ->]|Hk]%set_at_inv Hne Hv; [done|].
  unfold serve, view_function, view_set, try_except, mbind, M_bind,
    Redis.smembers, Redis.command.
  rewrite Hk. cbn [value store emitted].
  rewrite bool_decide_eq_false_2 by exact Hne.
  rewrite decode_all_text; [reflexivity|].
  apply Forall_forall. intros x Hx. apply Hv, elem_of_elements, Hx.
Qed.

(** C5, as the code has it. A member added to a set once or more is listed
    exactly once, provided the members already there are text: for a
    key that is missing or holds a set of text members, after [n >= 1]
    requests [/set/add/<key>/m] the members that [/set/view/<key>] answers
    contain [m] exactly once. *)
Theorem add_then_view_once (key m : string) (n : nat) (members : gset string)
    (db : gmap string rvalue) :
  set_at key db = Some members →
  (∀ x, x ∈ members → Text.utf8_valid x = true) →
  Text.path_param m = true →
  (1 ≤ n)%nat →
  let db' := Nat.iter n (λ d, store (serve (AddSetMember key m) d)) db in
  ∃ l, value (serve (ViewSet key) db') =
       Return (Response
                 (jsonify [("status", JStr "success"); ("key", JStr key);
                           ("members", JList (JStr <$> l))])
                 200) ∧
       count_occ String.string_dec l m = 1%nat.
Proof.
  intros Hkey Hms Hm Hn db'.
  destruct n as [|n]; [lia|].
  pose proof (add_set_member_iter key m members db n Hkey) as Hat.
  fold db' in Hat.
  exists (elements ({[m]} ∪ members)). split.
  - rewrite (serve_view_set key _ db' Hat); [reflexivity| |].
    + intros He. apply (not_elem_of_empty (C := gset string) m).
      rewrite <- He. apply elem_of_union_l, elem_of_singleton. reflexivity.
    + intros x [->%elem_of_singleton|Hx]%elem_of_union; auto using path_param_text.
  - apply NoDup_count_occ'; [apply NoDup_ListNoDup, NoDup_elements|].
    apply list_elem_of_In, elem_of_elements, elem_of_union_l, elem_of_singleton.
    reflexivity.
Qed.

Lemma add_then_view_once_witness :
  let db : gmap string rvalue := {[ "S" := RSet {[ "a" ]} ]} in
  set_at "S" db = Some {[ "a" ]} ∧
  (∀ x : string, x ∈ ({[ "a" ]} : gset string) → Text.utf8_valid x = true) ∧
  Text.path_param "m" = true ∧ (1 ≤ 2)%nat ∧
  ∃ l, value (serve (ViewSet "S")
                (Nat.iter 2 (λ d, store (serve (AddSetMember "S" "m") d)) db)) =
       Return (Response
                 (jsonify [("status", JStr "success"); ("key", JStr "S");
                           ("members", JList (JStr <$> l))])
                 200) ∧
       count_occ String.string_dec l "m" = 1%nat.
Proof.
  intros db.
  assert (Ha : ∀ x : string, x ∈ ({[ "a" ]} : gset string) → Text.utf8_valid x = true).
  { intros x ->%elem_of_singleton. reflexivity. }
  split; [reflexivity|]. split; [exact Ha|].
  split; [reflexivity|]. split; [lia|].
  apply (add_then_view_once "S" "m" 2 {[ "a" ]} db); [reflexivity|exact Ha|reflexivity|lia].
Defined.

(** C5 as stated fails on a set that holds a member which is not UTF-8 (put
    there by another client of the store): [view_set] decodes every member,
    the decoding raises, and the view is answered 500 without a [members]
    list. *)
Lemma view_set_undecodable_member :
  let bad := String (ascii_of_nat 255) "" in
  let db : gmap string rvalue := {[ "S" := RSet {[ bad ]} ]} in
  let db' := Nat.iter 1 (λ d, store (serve (AddSetMember "S" "m") d)) db in
  set_at "S" db = Some {[ bad ]} ∧
  (∃ r, value (serve (ViewSet "S") db') = Return r ∧
        code r = 500 ∧ field "status" (body r) = Some (JStr "error")) ∧
  ¬ (∃ l, value (serve (ViewSet "S") db') =
          Return (Response
                    (jsonify [("status", JStr "success"); ("key", JStr "S");
                              ("members", JList (JStr <$> l))])
                    200) ∧
          count_occ String.string_dec l "m" = 1%nat).
Proof.
  intros bad db db'.
  assert (Hv : ∃ b, value (serve (ViewSet "S") db') = Return (Response b 500) ∧
                    field "status" b = Some (JStr "error")).
  { eexists. split; vm_compute; reflexivity. }
  destruct Hv as [b [Hv Hb]].
  split; [reflexivity|]. split.
  - exists (Response b 500). rewrite Hv. split; [reflexivity|]. split; [reflexivity|exact Hb].
  - intros [l [Hl _]]. rewrite Hv in Hl. discriminate Hl.
Qed.

(** ** Sorted sets: [/zset/<key>/<member>/<int:score>] and [/zset/view/<key>] *)

Lemma zset_at_inv key db scores :
  zset_at key db = Some scores →
  (db !! key = None ∧ scores = ∅) ∨ db !! key = Some (RZSet scores).
Proof.
  unfold zset_at. destruct (db !! key) as [[]|]; intros [= <-]; auto.
Qed.

(** An integer of at most 53 bits is a double. *)
Lemma double_of_int_exact n : Z.abs n < 2 ^ 53 → Redis.double_of_int n = Some n.
Proof.
  intros Hn. unfold Redis.double_of_int.
  destruct (Z.eqb_spec (Z.abs n) 0) as [|Hz]; [reflexivity|].
  assert (Z.log2 (Z.abs n) < 53) by (apply Z.log2_lt_pow2; lia).
  destruct (Z.leb_spec (Z.log2 (Z.abs n) + 1) 53); [reflexivity|lia].
Qed.

Lemma serve_add_zset_member key m score scores db :
  zset_at key db = Some scores → Z.abs score < 2 ^ 53 →
  serve (AddZsetMember key m score) db =
  Outcome
    (Return (Response
               (jsonify [("status", JStr "success");
                         ("message", JStr ("Added " +:+ m +:+ " with score " +:+
                                           Text.str_of_int score +:+ " to sorted set " +:+ key))])
               200))
    (<[key := RZSet (<[m := score]> scores)]> db)
    [Log INFO ("Added to sorted set " +:+ key +:+ ": " +:+ m +:+
               " with score " +:+ Text.str_of_int score)].
Proof.
  intros [[Hk ->]|Hk]%zset_at_inv Hs;
    unfold serve, view_function, add_zset_member, try_except, mbind, M_bind,
      Redis.zadd, Redis.command;
    rewrite (double_of_int_exact score Hs), Hk; reflexivity.
Qed.

Lemma serve_view_zset key scores db :
  zset_at key db = Some scores → scores ≠ ∅ →
  (∀ x, is_Some (scores !! x) → Text.utf8_valid x = true) →
  serve (ViewZset key) db =
  Outcome
    (Return (Response
               (jsonify [("status", JStr "success"); ("key", JStr key);
                         ("members",
                          JList (format_item <$>
                                 merge_sort Redis.zset_le (map_to_list scores)))])
               200))
    db [].
Proof.
  intros [[_ ->]|Hk]%zset_at_inv Hne Hv; [done|].
  unfold serve, view_function, view_zset, try_except, mbind, M_bind,
    Redis.zrange_all_withscores, Redis.command.
  rewrite Hk. cbn [value store emitted].
  pose proof (merge_sort_Permutation Redis.zset_le (map_to_list scores)) as Hp.
  destruct (merge_sort Redis.zset_le (map_to_list scores)) as [|item items] eqn:Hs.
  - apply Permutation_nil_l in Hp. symmetry in Hp.
    apply map_to_list_empty_iff in Hp. done.
  - rewrite format_items_text; [reflexivity|].
    apply Forall_forall. intros [x sc] Hx. apply Hv. exists sc.
    apply elem_of_map_to_list. rewrite <- Hp. exact Hx.
Qed.

(** C6, as the code has it. A member added with a score is listed with that
    score, provided the members already there are text: on a key that
    is missing or holds a sorted set of text members, after
    [/zset/<key>/p/5] the members that [/zset/view/<key>] answers contain the
    object with member [p] and score [5]; so for every member and every
    score of at most 53 bits. *)
Theorem add_zset_then_view (key m : string) (score : Z) (scores : gmap string Z)
    (db : gmap string rvalue) :
  zset_at key db = Some scores →
  (∀ x, is_Some (scores !! x) → Text.utf8_valid x = true) →
  Text.path_param m = true →
  0 ≤ score < 2 ^ 53 →
  let db' := store (serve (AddZsetMember key m score) db) in
  ∃ l, value (serve (ViewZset key) db') =
       Return (Response
                 (jsonify [("status", JStr "success"); ("key", JStr key);
                           ("members", JList l)])
                 200) ∧
       JObj [("member", JStr m); ("score", JNum score)] ∈ l.
Proof.
  intros Hkey Hms Hm Hs db'.
  assert (Hat : zset_at key db' = Some (<[m := score]> scores)).
  { subst db'. rewrite (serve_add_zset_member key m score scores db Hkey) by lia.
    cbn [store]. unfold zset_at. rewrite lookup_insert_eq. reflexivity. }
  eexists. split.
  - rewrite (serve_view_zset key _ db' Hat); [reflexivity| |].
    + apply insert_non_empty.
    + intros x [sc Hx]. destruct (decide (m = x)) as [<-|Hne].
      * apply path_param_text, Hm.
      * rewrite lookup_insert_ne in Hx by exact Hne. apply Hms. eauto.
  - apply (list_elem_of_fmap_2 format_item _ (m, score)).
    rewrite merge_sort_Permutation.
    apply elem_of_map_to_list, lookup_insert_eq.
Qed.

Lemma add_zset_then_view_witness :
  let db : gmap string rvalue := {[ "Z" := RZSet {[ "a" := 7 ]} ]} in
  zset_at "Z" db = Some {[ "a" := 7 ]} ∧
  (∀ x : string, is_Some (({[ "a" := 7 ]} : gmap string Z) !! x) →
                 Text.utf8_valid x = true) ∧
  Text.path_param "p" = true ∧ 0 ≤ 5 < 2 ^ 53 ∧
  ∃ l, value (serve (ViewZset "Z") (store (serve (AddZsetMember "Z" "p" 5) db))) =
       Return (Response
                 (jsonify [("status", JStr "success"); ("key", JStr "Z");
                           ("members", JList l)])
                 200) ∧
       JObj [("member", JStr "p"); ("score", JNum 5)] ∈ l.
Proof.
  intros db.
  assert (Ha : ∀ x : string, is_Some (({[ "a" := 7 ]} : gmap string Z) !! x) →
                             Text.utf8_valid x = true).
  { intros x [sc Hx]. apply lookup_singleton_Some in Hx as [<- _]. reflexivity. }
  split; [reflexivity|]. split; [exact Ha|].
  split; [reflexivity|]. split; [lia|].
  apply (add_zset_then_view "Z" "p" 5 {[ "a" := 7 ]} db);
    [reflexivity|exact Ha|reflexivity|lia].
Defined.

(** C6 as stated fails on a sorted set that holds a member which is not
    UTF-8 (put there by another client of the store): [view_zset] decodes
    every member, the decoding raises, and the view is answered 500 without a
    [members] list. *)
Lemma view_zset_undecodable_member :
  let bad := String (ascii_of_nat 255) "" in
  let db : gmap string rvalue := {[ "Z" := RZSet {[ bad := 7 ]} ]} in
  let db' := store (serve (AddZsetMember "Z" "p" 5) db) in
  zset_at "Z" db = Some {[ bad := 7 ]} ∧
  (∃ r, value (serve (ViewZset "Z") db') = Return r ∧
        code r = 500 ∧ field "status" (body r) = Some (JStr "error")) ∧
  ¬ (∃ l, value (serve (ViewZset "Z") db') =
          Return (Response
                    (jsonify [("status", JStr "success"); ("key", JStr "Z");
                              ("members", JList l)])
                    200) ∧
          JObj [("member", JStr "p"); ("score", JNum 5)] ∈ l).
Proof.
  intros bad db db'.
  assert (Hv : ∃ b, value (serve (ViewZset "Z") db') = Return (Response b 500) ∧
                    field "status" b = Some (JStr "error")).
  { eexists. split; vm_compute; reflexivity. }
  destruct Hv as [b [Hv Hb]].
  split; [reflexivity|]. split.
  - exists (Response b 500). rewrite Hv. split; [reflexivity|]. split; [reflexivity|exact Hb].
  - intros [l [Hl _]]. rewrite Hv in Hl. discriminate Hl.
Qed.

(** ** The counter: [/visits] *)

Lemma counter_at_inv db c :
  counter_at "visit_count" db = Some c →
  Redis.INT64_MIN ≤ c ≤ Redis.INT64_MAX ∧
  ((db !! "visit_count" = None ∧ c = 0) ∨
   (∃ b, db !! "visit_count" = Some (RString b) ∧ Text.int_of_str b = Some c)).
Proof.
  unfold counter_at.
  destruct (db !! "visit_count") as [[b| | | |]|]; try discriminate.
  - destruct (Text.int_of_str b) as [n|] eqn:Hb; [|discriminate].
    destruct (Z.leb_spec Redis.INT64_MIN n); [|discriminate].
    destruct (Z.leb_spec n Redis.INT64_MAX); [|discriminate].
    intros [= <-]. split; [lia|]. right. eauto.
  - intros [= <-]. unfold Redis.INT64_MIN, Redis.INT64_MAX. split; [lia|]. auto.
Qed.

Lemma serve_visit_counter c db :
  counter_at "visit_count" db = Some c → c < Redis.INT64_MAX →
  serve VisitCounter db =
  Outcome
    (Return (Response
               (jsonify [("message", JStr "Page visit counter");
                         ("total_visits", JNum (c + 1))])
               200))
    (<["visit_count" := RString (Text.str_of_int (c + 1))]> db)
    [Log INFO ("Visit count updated: " +:+ Text.str_of_int (c + 1))].
Proof.
  intros [[Hlo Hhi] [[Hk ->]|[b [Hk Hb]]]]%counter_at_inv Hlt;
    unfold serve, view_function, visit_counter, try_except, mbind, M_bind,
      Redis.incr, Redis.command;
    rewrite Hk; [reflexivity|].
  rewrite Hb.
  destruct (Z.leb_spec Redis.INT64_MIN c); [|lia].
  destruct (Z.leb_spec c Redis.INT64_MAX); [|lia].
  destruct (Z.eqb_spec c Redis.INT64_MAX); [lia|]. reflexivity.
Qed.








(** * Further properties *)

(** ** Status codes *)

(** Each route answers only the status codes of its own paths, and the
    [status] member goes with the code: [success] with 200, [empty] with the
    404 of the view routes, [error] with the 404 of [/get] and with 400 and
    500; 400 comes from [/set/add] alone. *)
Theorem code_and_status (rq : request) (lk : link) (db : gmap string rvalue) :
  ∃ r, value (view_function rq lk db) = Return r ∧
       In (code r) (codes rq) ∧
       field "status" (body r) = status_of rq (code r).
Proof.
  revert lk db.
  change (ensures (view_function rq) (λ r _, ∃ resp, r = Return resp ∧
            In (code resp) (codes rq) ∧
            field "status" (body resp) = status_of rq (code resp))).
  every_path rq; eexists; (split; [reflexivity|]); (split; [|reflexivity]);
    cbn; auto.
Qed.

(** ** A failing link *)

Lemma append_assoc (a b c : string) : (a +:+ b) +:+ c = a +:+ b +:+ c.
Proof.
  induction a as [|x a IH]; [reflexivity|].
  change (String x ((a +:+ b) +:+ c) = String x (a +:+ b +:+ c)).
  f_equal. exact IH.
Qed.

(** An exception of the first call in a [try], raised before anything is
    logged, goes to the handler, on the store the call left. *)
Lemma raised_in_try {A B} (m : M A) (k : A → M B) (handler : exn → M B) lk db e :
  value (m lk db) = Raise e → emitted (m lk db) = [] →
  value (try_except (m ≫= k) handler lk db) = value (handler e lk (store (m lk db))) ∧
  emitted (try_except (m ≫= k) handler lk db)
  = emitted (handler e lk (store (m lk db))).
Proof.
  intros Hv Hl. unfold try_except, mbind, M_bind.
  destruct (m lk db) as [val db1 l]. cbn in Hv, Hl. subst val l. cbn.
  split; reflexivity.
Qed.

Lemma command_silent {A} (answer : gmap string rvalue → result A * gmap string rvalue)
    lk db :
  emitted (Redis.command answer lk db) = [].
Proof. unfold Redis.command. destruct lk; [destruct (answer db)| |]; reflexivity. Qed.

Lemma call_raises {A} (m : M A) lk db e :
  value ((m;; mret ()) lk db) = Raise e → value (m lk db) = Raise e.
Proof.
  unfold mbind, M_bind. destruct (m lk db) as [[a|e'] db1 l]; cbn; [discriminate|].
  intros [= ->]. reflexivity.
Qed.

(** Whenever the call to the store raises, because the link is down, because
    the reply is lost, or because the store replies with an error, the
    request is answered 500 with the text of the exception as [message], and
    one ERROR line that ends with that text is logged; on [/set/add] this
    holds for the exceptions that are not taken for a wrong type. *)
Theorem store_call_failure (rq : request) (lk : link) (db : gmap string rvalue)
    (e : exn) :
  value (store_call rq lk db) = Raise e →
  (∀ key v, rq = AddSetMember key v → wrong_type e = false) →
  value (view_function rq lk db) =
    Return (Response (jsonify [("status", JStr "error"); ("message", JStr (str e))]) 500) ∧
  ∃ prefix, emitted (view_function rq lk db) = [Log ERROR (prefix +:+ str e)].
Proof.
  intros Hcall Hadd.
  assert (Hlog : ∀ a k b, a +:+ k +:+ b +:+ str e = (a +:+ k +:+ b) +:+ str e).
  { intros a k b. rewrite <- !append_assoc. reflexivity. }
  destruct rq as [|key v|key|key v|key|key v|key|key fld v|key|key member score|key|];
    cbn [store_call view_function] in *; [discriminate Hcall|..];
    apply call_raises in Hcall;
    unfold set_value, get_value, push_list, get_list, add_set_member, view_set,
      set_hash_field, view_hash, add_zset_member, view_zset, visit_counter;
    unfold Redis.set, Redis.get, Redis.lpush, Redis.lrange_all, Redis.sadd,
      Redis.smembers, Redis.hset, Redis.hgetall, Redis.zadd,
      Redis.zrange_all_withscores, Redis.incr in Hcall |- *;
    match goal with
    | |- context [try_except (mbind ?k ?m) ?h lk db] =>
      destruct (raised_in_try m k h lk db e Hcall (command_silent _ lk db)) as [-> ->]
    end;
    try (split; [reflexivity|];
         first [eexists; reflexivity
               |eexists; apply (f_equal (λ m, [Log ERROR m])), Hlog]).
  specialize (Hadd key v eq_refl). unfold wrong_type in Hadd.
  destruct (is_ResponseError e); cbn in Hadd |- *; [rewrite Hadd|];
    (split; [reflexivity|eexists; reflexivity]).
Qed.

Lemma store_call_failure_witness :
  let e := Exn ConnectionError "Connection closed by server." in
  let rq := PushList "L" "x" in
  value (store_call rq (Lost e) ∅) = Raise e ∧
  (∀ key v, rq = AddSetMember key v → wrong_type e = false) ∧
  value (view_function rq (Lost e) ∅) =
    Return (Response (jsonify [("status", JStr "error");
                               ("message", JStr "Connection closed by server.")]) 500) ∧
  ∃ prefix, emitted (view_function rq (Lost e) ∅) = [Log ERROR (prefix +:+ str e)].
Proof.
  intros e rq.
  split; [reflexivity|]. split; [intros key v; discriminate|].
  apply (store_call_failure rq (Lost e) ∅ e); [reflexivity|intros key v; discriminate].
Defined.

(** ** What a request does to the store *)

Section Moves.

Context (R : relation (gmap string rvalue)) `{!Reflexive R, !Transitive R}.

Lemma moves_ret {A} (a : A) : moves R (mret a).
Proof. intros lk db. reflexivity. Qed.

Lemma moves_bind {A B} (m : M A) (k : A → M B) :
  moves R m → (∀ a, moves R (k a)) → moves R (m ≫= k).
Proof.
  intros Hm Hk lk db. specialize (Hm lk db).
  unfold mbind, M_bind. destruct (m lk db) as [[a|e] db1 l]; cbn in *.
  - etransitivity; [exact Hm|]. apply Hk.
  - exact Hm.
Qed.

Lemma moves_try {A} (body : M A) (handler : exn → M A) :
  moves R body → (∀ e, moves R (handler e)) → moves R (try_except body handler).
Proof.
  intros Hb Hh lk db. specialize (Hb lk db).
  unfold try_except. destruct (body lk db) as [[a|e] db1 l]; cbn in *.
  - exact Hb.
  - etransitivity; [exact Hb|]. apply Hh.
Qed.

Lemma moves_command {A} (answer : gmap string rvalue → result A * gmap string rvalue) :
  (∀ db, R db (answer db).2) → moves R (Redis.command answer).
Proof.
  intros H lk db. unfold Redis.command.
  specialize (H db). destruct lk; [destruct (answer db); exact H|reflexivity|exact H].
Qed.

Lemma moves_log_info m : moves R (logging_info m).
Proof. intros lk db. reflexivity. Qed.

Lemma moves_log_error m : moves R (logging_error m).
Proof. intros lk db. reflexivity. Qed.

Lemma moves_decode b : moves R (decode b).
Proof. intros lk db. unfold decode. destruct (Text.utf8_valid b); reflexivity. Qed.

Lemma moves_decode_all raw : moves R (decode_all raw).
Proof.
  induction raw as [|b raw IH]; cbn [decode_all]; [apply moves_ret|].
  apply moves_bind; [apply moves_decode|]. intros t.
  apply moves_bind; [exact IH|]. intros ts. apply moves_ret.
Qed.

Lemma moves_decode_items items : moves R (decode_items items).
Proof.
  induction items as [|[k v] items IH]; cbn [decode_items]; [apply moves_ret|].
  apply moves_bind; [apply moves_decode|]. intros k'.
  apply moves_bind; [apply moves_decode|]. intros v'.
  apply moves_bind; [exact IH|]. intros kvs. apply moves_ret.
Qed.

Lemma moves_format_items items : moves R (format_items items).
Proof.
  induction items as [|[m sc] items IH]; cbn [format_items]; [apply moves_ret|].
  apply moves_bind; [apply moves_decode|]. intros m'.
  apply moves_bind; [exact IH|]. intros formatted. apply moves_ret.
Qed.

End Moves.

(** One rule, by the head of the computation; a command is left to the
    caller. *)
Ltac moves_step :=
  lazymatch goal with
  | |- moves ?R (mbind _ _) => apply (moves_bind R); [|intros ?]
  | |- moves ?R (try_except _ _) => apply (moves_try R); [|intros ?]
  | |- moves ?R (mret _) => apply (moves_ret R)
  | |- moves ?R (logging_info _) => apply (moves_log_info R)
  | |- moves ?R (logging_error _) => apply (moves_log_error R)
  | |- moves ?R (decode _) => apply (moves_decode R)
  | |- moves ?R (decode_all _) => apply (moves_decode_all R)
  | |- moves ?R (decode_items _) => apply (moves_decode_items R)
  | |- moves ?R (format_items _) => apply (moves_format_items R)
  | |- moves _ (match ?x with _ => _ end) => destruct x
  end.

(** A command, by what it does to any store. *)
Ltac moves_command :=
  lazymatch goal with
  | |- moves ?R (Redis.command _) => apply (moves_command R); intros ?db
  end.

Ltac moves_paths rq :=
  destruct rq; cbn [view_function];
  unfold home, set_value, get_value, push_list, get_list, add_set_member, view_set,
    set_hash_field, view_hash, add_zset_member, view_zset, visit_counter,
    Redis.set, Redis.get, Redis.lpush, Redis.lrange_all, Redis.sadd, Redis.smembers,
    Redis.hset, Redis.hgetall, Redis.zadd, Redis.zrange_all_withscores, Redis.incr;
  repeat moves_step.

#[local] Instance same_elsewhere_refl key : Reflexive (same_elsewhere key).
Proof. intros db k _. reflexivity. Qed.

#[local] Instance same_elsewhere_trans key : Transitive (same_elsewhere key).
Proof. intros a b c Hab Hbc k Hk. rewrite (Hbc k Hk). apply Hab, Hk. Qed.

(** The routes that read ([/], [/get], and the four view routes) leave the
    store as they found it, whatever they answer. *)
Theorem reads_keep_store (rq : request) (lk : link) (db : gmap string rvalue) :
  reads rq = true → store (view_function rq lk db) = db.
Proof.
  intros Hr. symmetry. revert lk db.
  change (moves eq (view_function rq)).
  moves_paths rq; try discriminate Hr;
    moves_command; destruct (db !! key) as [[]|]; reflexivity.
Qed.

Lemma reads_keep_store_witness :
  let db : gmap string rvalue := {[ "S" := RSet {[ "a" ]} ]} in
  reads (ViewSet "S") = true ∧ store (view_function (ViewSet "S") Up db) = db.
Proof.
  intros db. split; [reflexivity|].
  apply (reads_keep_store (ViewSet "S") Up db). reflexivity.
Defined.

(** A request changes nothing at the keys it does not name: every key other
    than the one of its route ([visit_count] for [/visits]) holds afterwards
    what it held before. *)
Theorem other_keys_untouched (rq : request) (lk : link) (db : gmap string rvalue)
    (k : string) :
  key_of rq ≠ Some k → store (view_function rq lk db) !! k = db !! k.
Proof.
  intros Hk. revert lk db.
  enough (H : moves (same_elsewhere (key_of rq)) (view_function rq)).
  { intros lk db. apply (H lk db k Hk). }
  clear k Hk.
  moves_paths rq; moves_command;
    repeat match goal with
           | |- context [match ?x with _ => _ end] => destruct x
           end;
    cbn [snd key_of]; intros k Hk; try reflexivity;
    apply lookup_insert_ne; congruence.
Qed.

Lemma other_keys_untouched_witness :
  let db : gmap string rvalue := {[ "a" := RString "1" ]} in
  key_of (PushList "L" "x") ≠ Some "a" ∧
  store (view_function (PushList "L" "x") Up db) !! "a" = db !! "a".
Proof.
  intros db. split; [discriminate|].
  apply (other_keys_untouched (PushList "L" "x") Up db "a"). discriminate.
Defined.

(** ** Missing keys and keys of another type *)

(** A key that does not exist reads as empty on the view routes of sets,
    hashes and sorted sets: each answers 404 with status [empty], logs
    nothing and creates nothing. *)
Theorem views_of_missing_key (k : string) (db : gmap string rvalue) :
  db !! k = None →
  serve (ViewSet k) db =
    Outcome
      (Return (Response
                 (jsonify [("status", JStr "empty");
                           ("message", JStr ("Set " +:+ k +:+ " is empty or does not exist"))])
                 404))
      db [] ∧
  serve (ViewHash k) db =
    Outcome
      (Return (Response
                 (jsonify [("status", JStr "empty");
                           ("message", JStr ("Hash " +:+ k +:+ " is empty or does not exist"))])
                 404))
      db [] ∧
  serve (ViewZset k) db =
    Outcome
      (Return (Response
                 (jsonify [("status", JStr "empty");
                           ("message",
                            JStr ("Sorted set " +:+ k +:+ " is empty or does not exist"))])
                 404))
      db [].
Proof.
  intros Hk. repeat split.
  - unfold serve, view_function, view_set, try_except, mbind, M_bind,
      Redis.smembers, Redis.command.
    rewrite Hk. reflexivity.
  - unfold serve, view_function, view_hash, try_except, mbind, M_bind,
      Redis.hgetall, Redis.command.
    rewrite Hk. reflexivity.
  - unfold serve, view_function, view_zset, try_except, mbind, M_bind,
      Redis.zrange_all_withscores, Redis.command.
    rewrite Hk. reflexivity.
Qed.

Lemma views_of_missing_key_witness :
  let db : gmap string rvalue := {[ "other" := RString "1" ]} in
  db !! "k" = None ∧
  serve (ViewSet "k") db =
    Outcome
      (Return (Response
                 (jsonify [("status", JStr "empty");
                           ("message", JStr "Set k is empty or does not exist")])
                 404))
      db [] ∧
  serve (ViewHash "k") db =
    Outcome
      (Return (Response
                 (jsonify [("status", JStr "empty");
                           ("message", JStr "Hash k is empty or does not exist")])
                 404))
      db [] ∧
  serve (ViewZset "k") db =
    Outcome
      (Return (Response
                 (jsonify [("status", JStr "empty");
                           ("message", JStr "Sorted set k is empty or does not exist")])
                 404))
      db [].
Proof.
  intros db. split; [reflexivity|].
  apply (views_of_missing_key "k" db). reflexivity.
Defined.

Lemma get_missing_not_found_witness :
  (∅ : gmap string rvalue) !! "b" = None ∧
  value (serve (GetValue "b") ∅) =
  Return (Response
            (jsonify [("status", JStr "error"); ("message", JStr "Key 'b' not found")])
            404).
Proof.
  split; [reflexivity|].
  apply (get_missing_not_found "b" ∅). reflexivity.
Defined.

(** An exception of the first call in a [try] goes to the handler. *)
Lemma raise_caught {A B} (m : M A) (k : A → M B) (handler : exn → M B) lk db e :
  m lk db = Outcome (Raise e) db [] →
  try_except (m ≫= k) handler lk db = handler e lk db.
Proof.
  intros Hm. unfold try_except, mbind, M_bind. rewrite Hm. cbn.
  destruct (handler e lk db). reflexivity.
Qed.

(** A key that holds a structure other than the one the command of the
    request needs is answered as an error and left as it is: 400 on
    [/set/add], 500 on every other route, with status [error]. *)
Theorem key_of_another_type (rq : request) (k : string) (kd : kind) (x : rvalue)
    (db : gmap string rvalue) :
  key_of rq = Some k → expects rq = Some kd →
  db !! k = Some x → kind_of x ≠ kd →
  ∃ r l, serve rq db = Outcome (Return r) db l ∧
         code r = (match rq with AddSetMember _ _ => 400 | _ => 500 end) ∧
         field "status" (body r) = Some (JStr "error").
Proof.
  intros Hkey Hexp Hk Hx.
  destruct rq; cbn in Hkey, Hexp; simplify_eq; destruct x; try done;
    try (destruct (Redis.double_of_int score) as [sc|] eqn:Hsc);
    unfold serve, view_function, get_value, push_list, get_list, add_set_member,
      view_set, set_hash_field, view_hash, add_zset_member, view_zset, visit_counter;
    (erewrite raise_caught;
       [|unfold Redis.get, Redis.lpush, Redis.lrange_all, Redis.sadd,
           Redis.smembers, Redis.hset, Redis.hgetall, Redis.zadd,
           Redis.zrange_all_withscores, Redis.incr, Redis.command;
         rewrite ?Hsc, ?Hk; reflexivity]);
    (eexists _, _; split; [reflexivity|]; split; reflexivity).
Qed.

Lemma key_of_another_type_witness :
  let db := store (serve (SetValue "k" "v") ∅) in
  key_of (PushList "k" "x") = Some "k" ∧ expects (PushList "k" "x") = Some KList ∧
  db !! "k" = Some (RString "v") ∧ kind_of (RString "v") ≠ KList ∧
  ∃ r l, serve (PushList "k" "x") db = Outcome (Return r) db l ∧
         code r = 500 ∧
         field "status" (body r) = Some (JStr "error").
Proof.
  intros db. repeat (split; [reflexivity|]). split; [discriminate|].
  apply (key_of_another_type (PushList "k" "x") "k" KList (RString "v") db);
    [reflexivity|reflexivity|reflexivity|discriminate].
Defined.

(** Stored bytes that are not UTF-8 do not break [/get]: decoding raises
    inside the [try], and the request is answered 500 with status [error]
    and one ERROR line. *)
Theorem get_undecodable (k b : string) (db : gmap string rvalue) :
  db !! k = Some (RString b) → b ≠ "" → Text.utf8_valid b = false →
  ∃ r, value (serve (GetValue k) db) = Return r ∧
       code r = 500 ∧ field "status" (body r) = Some (JStr "error") ∧
       lvl <$> emitted (serve (GetValue k) db) = [ERROR].
Proof.
  intros Hk Hne Hb. destruct b as [|c b]; [done|].
  unfold serve, view_function, get_value, try_except, mbind, M_bind,
    Redis.get, Redis.command, decode.
  rewrite Hk. cbn [value store emitted]. rewrite Hb.
  eexists. split; [reflexivity|]. split; [reflexivity|]. split; reflexivity.
Qed.

Lemma get_undecodable_witness :
  let b := String (ascii_of_nat 255) "" in
  let db : gmap string rvalue := {[ "k" := RString b ]} in
  db !! "k" = Some (RString b) ∧ b ≠ "" ∧ Text.utf8_valid b = false ∧
  ∃ r, value (serve (GetValue "k") db) = Return r ∧
       code r = 500 ∧ field "status" (body r) = Some (JStr "error") ∧
       lvl <$> emitted (serve (GetValue "k") db) = [ERROR].
Proof.
  intros b db. split; [reflexivity|]. split; [discriminate|]. split; [reflexivity|].
  apply (get_undecodable "k" b db); [reflexivity|discriminate|reflexivity].
Defined.

(** ** The counter and the scalars share the key space *)

(** [visit_count] is a key like any other: once it holds a string that is
    not the text of a 64-bit integer (written, say, through
    [/set/visit_count/<value>]), [/visits] is answered 500 with the reply of
    the store, and the key keeps what it holds. *)
Theorem visits_on_non_integer (b : string) (db : gmap string rvalue) :
  db !! "visit_count" = Some (RString b) →
  counter_at "visit_count" db = None →
  serve VisitCounter db =
    Outcome
      (Return (Response
                 (jsonify [("status", JStr "error");
                           ("message", JStr "value is not an integer or out of range")])
                 500))
      db
      [Log ERROR "Error updating visit count: value is not an integer or out of range"].
Proof.
  unfold counter_at. intros Hk Hc. rewrite Hk in Hc.
  unfold serve, view_function, visit_counter, try_except, mbind, M_bind,
    Redis.incr, Redis.command.
  rewrite Hk.
  destruct (Text.int_of_str b) as [n|]; [|reflexivity].
  destruct ((Redis.INT64_MIN <=? n) && (n <=? Redis.INT64_MAX)); [discriminate Hc|].
  reflexivity.
Qed.

Lemma visits_on_non_integer_witness :
  let db := store (serve (SetValue "visit_count" "abc") ∅) in
  db !! "visit_count" = Some (RString "abc") ∧
  counter_at "visit_count" db = None ∧
  serve VisitCounter db =
    Outcome
      (Return (Response
                 (jsonify [("status", JStr "error");
                           ("message", JStr "value is not an integer or out of range")])
                 500))
      db
      [Log ERROR "Error updating visit count: value is not an integer or out of range"].
Proof.
  intros db. split; [reflexivity|]. split; [reflexivity|].
  apply (visits_on_non_integer "abc" db); reflexivity.
Defined.

(** And the counter can be set: after [/set/visit_count/<n>] for the text of
    an integer [n] below the largest one, [/visits] answers [n + 1]. *)
Theorem visits_after_set (n : Z) (db : gmap string rvalue) :
  Redis.INT64_MIN ≤ n < Redis.INT64_MAX →
  let db' := store (serve (SetValue "visit_count" (Text.str_of_int n)) db) in
  total_visits (serve VisitCounter db') = Some (n + 1).
Proof.
  intros Hn db'.
  assert (Hc : counter_at "visit_count" db' = Some n).
  { subst db'. rewrite serve_set_value. cbn [store].
    unfold counter_at. rewrite lookup_insert_eq, int_of_str_of_int.
    destruct (Z.leb_spec Redis.INT64_MIN n); [|lia].
    destruct (Z.leb_spec n Redis.INT64_MAX); [|lia]. reflexivity. }
  rewrite (serve_visit_counter n db' Hc) by lia. reflexivity.
Qed.

Lemma visits_after_set_witness :
  Redis.INT64_MIN ≤ 99 < Redis.INT64_MAX ∧
  total_visits (serve VisitCounter
                  (store (serve (SetValue "visit_count" (Text.str_of_int 99)) ∅)))
  = Some (99 + 1).
Proof.
  assert (H : Redis.INT64_MIN ≤ 99 < Redis.INT64_MAX)
    by (unfold Redis.INT64_MIN, Redis.INT64_MAX; lia).
  split; [exact H|].
  apply (visits_after_set 99 ∅ H).
Defined.

(** ** Hashes: [/hash/<key>/<field>/<value>] and [/hash/view/<key>] *)

Lemma hash_at_inv key db fields :
  hash_at key db = Some fields →
  (db !! key = None ∧ fields = ∅) ∨ db !! key = Some (RHash fields).
Proof.
  unfold hash_at. destruct (db !! key) as [[]|]; intros [= <-]; auto.
Qed.

Lemma serve_set_hash_field key f v fields db :
  hash_at key db = Some fields →
  serve (SetHashField key f v) db =
  Outcome
    (Return (Response
               (jsonify [("status", JStr "success");
                         ("message",
                          JStr ("Set " +:+ f +:+ " = " +:+ v +:+ " in hash " +:+ key))])
               200))
    (<[key := RHash (<[f := v]> fields)]> db)
    [Log INFO ("Hash set: " +:+ key +:+ "[" +:+ f +:+ "] = " +:+ v)].
Proof.
  intros [[Hk ->]|Hk]%hash_at_inv;
    unfold serve, view_function, set_hash_field, try_except, mbind, M_bind,
      Redis.hset, Redis.command;
    rewrite Hk; reflexivity.
Qed.

Lemma decode_items_text items lk db :
  Forall (λ kv, Text.utf8_valid kv.1 = true ∧ Text.utf8_valid kv.2 = true) items →
  decode_items items lk db = Outcome (Return (hash_item <$> items)) db [].
Proof.
  induction 1 as [|[k v] items [Hk Hv] _ IH]; [reflexivity|].
  cbn [decode_items]. unfold mbind, M_bind.
  rewrite decode_text by exact Hk. cbn.
  rewrite decode_text by exact Hv. cbn.
  rewrite IH. reflexivity.
Qed.

Lemma serve_view_hash key fields db :
  hash_at key db = Some fields → fields ≠ ∅ →
  (∀ f v, fields !! f = Some v →
          Text.utf8_valid f = true ∧ Text.utf8_valid v = true) →
  serve (ViewHash key) db =
  Outcome
    (Return (Response
               (jsonify [("status", JStr "success"); ("key", JStr key);
                         ("fields", JObj (hash_item <$> map_to_list fields))])
               200))
    db [].
Proof.
  intros [[_ ->]|Hk]%hash_at_inv Hne Hv; [done|].
  unfold serve, view_function, view_hash, try_except, mbind, M_bind,
    Redis.hgetall, Redis.command.
  rewrite Hk. cbn [value store emitted].
  rewrite bool_decide_eq_false_2 by exact Hne.
  rewrite decode_items_text; [reflexivity|].
  apply Forall_forall. intros [f v] Hfv. apply (Hv f v), elem_of_map_to_list, Hfv.
Qed.

(** Looking a member up in the answered object is looking the field up in
    the hash. *)
Lemma assoc_hash_items (l : list (string * string)) (g : string) :
  assoc g (hash_item <$> l) = JStr <$> (list_to_map l : gmap string string) !! g.
Proof.
  induction l as [|[k v] l IH]; [reflexivity|].
  cbn [fmap list_fmap hash_item assoc fst snd list_to_map foldr].
  destruct (String.eqb_spec k g) as [->|Hne].
  - rewrite lookup_insert_eq. reflexivity.
  - rewrite lookup_insert_ne by exact Hne. exact IH.
Qed.

(** After [/hash/<key>/f/v] on a key that is missing or holds a hash of text
    fields, [/hash/view/<key>] answers 200 and its [fields] object holds
    exactly the fields of the hash: [f] with the value [v] just written
    (replacing an older value of [f]), every other field with the value it
    had. *)
Theorem hash_set_then_view (key f v : string) (fields : gmap string string)
    (db : gmap string rvalue) :
  hash_at key db = Some fields →
  (∀ g w, fields !! g = Some w →
          Text.utf8_valid g = true ∧ Text.utf8_valid w = true) →
  Text.path_param f = true → Text.path_param v = true →
  let db' := store (serve (SetHashField key f v) db) in
  ∃ fs, value (serve (ViewHash key) db') =
        Return (Response
                  (jsonify [("status", JStr "success"); ("key", JStr key);
                            ("fields", JObj fs)])
                  200) ∧
        assoc f fs = Some (JStr v) ∧
        ∀ g, g ≠ f → assoc g fs = JStr <$> fields !! g.
Proof.
  intros Hkey Hfs Hf Hv db'.
  assert (Hat : hash_at key db' = Some (<[f := v]> fields)).
  { subst db'. rewrite (serve_set_hash_field key f v fields db Hkey).
    cbn [store]. unfold hash_at. rewrite lookup_insert_eq. reflexivity. }
  eexists. split; [|split].
  - rewrite (serve_view_hash key _ db' Hat); [reflexivity| |].
    + apply insert_non_empty.
    + intros g w Hg. destruct (decide (f = g)) as [<-|Hne].
      * rewrite lookup_insert_eq in Hg. injection Hg as <-.
        auto using path_param_text.
      * rewrite lookup_insert_ne in Hg by exact Hne. eauto.
  - rewrite assoc_hash_items, list_to_map_to_list, lookup_insert_eq. reflexivity.
  - intros g Hg.
    rewrite assoc_hash_items, list_to_map_to_list, lookup_insert_ne by done.
    reflexivity.
Qed.

Lemma hash_set_then_view_witness :
  let db : gmap string rvalue := {[ "H" := RHash {[ "f" := "old" ]} ]} in
  hash_at "H" db = Some {[ "f" := "old" ]} ∧
  (∀ g w : string, ({[ "f" := "old" ]} : gmap string string) !! g = Some w →
                   Text.utf8_valid g = true ∧ Text.utf8_valid w = true) ∧
  Text.path_param "f" = true ∧ Text.path_param "new" = true ∧
  ∃ fs, value (serve (ViewHash "H") (store (serve (SetHashField "H" "f" "new") db))) =
        Return (Response
                  (jsonify [("status", JStr "success"); ("key", JStr "H");
                            ("fields", JObj fs)])
                  200) ∧
        assoc "f" fs = Some (JStr "new") ∧
        ∀ g, g ≠ "f" → assoc g fs = JStr <$> ({[ "f" := "old" ]} : gmap string string) !! g.
Proof.
  intros db.
  assert (Ha : ∀ g w : string, ({[ "f" := "old" ]} : gmap string string) !! g = Some w →
                               Text.utf8_valid g = true ∧ Text.utf8_valid w = true).
  { intros g w [<- <-]%lookup_singleton_Some. split; reflexivity. }
  split; [reflexivity|]. split; [exact Ha|].
  split; [reflexivity|]. split; [reflexivity|].
  apply (hash_set_then_view "H" "f" "new" {[ "f" := "old" ]} db);
    [reflexivity|exact Ha|reflexivity|reflexivity].
Defined.

(** ** More on lists, sets and sorted sets *)

Lemma run_cons rq rqs db : run (rq :: rqs) db = run rqs (store (serve rq db)).
Proof. reflexivity. Qed.

Lemma run_pushes key (vs : list string) : ∀ items db,
  list_at key db = Some items →
  list_at key (run (PushList key <$> vs) db) = Some (rev vs ++ items)%list.
Proof.
  induction vs as [|v vs IH]; intros items db Hk; [exact Hk|].
  cbn [fmap list_fmap rev]. rewrite run_cons.
  rewrite (IH (v :: items)) by (apply push_list_at, Hk).
  rewrite <- app_assoc. reflexivity.
Qed.

(** A list is read back newest first: after the values [vs] are pushed one by
    one onto a list holding [items], [/list/<key>] answers the pushed values
    in reverse order of arrival, followed by [items]. *)
Theorem pushes_then_read (key : string) (vs items : list string)
    (db : gmap string rvalue) :
  list_at key db = Some items →
  Forall (λ b, Text.utf8_valid b = true) (vs ++ items)%list →
  (vs ++ items)%list ≠ [] →
  value (serve (GetList key) (run (PushList key <$> vs) db)) =
  Return (Response
            (jsonify [("status", JStr "success"); ("key", JStr key);
                      ("values", JList (JStr <$> (rev vs ++ items)%list))])
            200).
Proof.
  intros Hk Hv Hne.
  pose proof (run_pushes key vs items db Hk) as Hat.
  assert (Hv' : Forall (λ b, Text.utf8_valid b = true) (rev vs ++ items)%list).
  { apply Forall_app in Hv as [Hvs Hitems]. apply Forall_app. split; [|exact Hitems].
    apply Forall_forall. intros x Hx%list_elem_of_In%in_rev.
    apply (proj1 (Forall_forall _ _) Hvs), list_elem_of_In, Hx. }
  destruct (rev vs ++ items)%list as [|c rest] eqn:Hl.
  - apply app_eq_nil in Hl as [Hr ->].
    apply (f_equal (@rev string)) in Hr. rewrite rev_involutive in Hr. cbn in Hr.
    subst vs. done.
  - rewrite (serve_get_list key c rest _ Hat Hv'). reflexivity.
Qed.

Lemma pushes_then_read_witness :
  let db : gmap string rvalue := {[ "L" := RList ["z"] ]} in
  list_at "L" db = Some ["z"] ∧
  Forall (λ b, Text.utf8_valid b = true) (["a"; "b"; "c"] ++ ["z"])%list ∧
  (["a"; "b"; "c"] ++ ["z"])%list ≠ [] ∧
  value (serve (GetList "L") (run (PushList "L" <$> ["a"; "b"; "c"]) db)) =
  Return (Response
            (jsonify [("status", JStr "success"); ("key", JStr "L");
                      ("values", JList (JStr <$> (rev ["a"; "b"; "c"] ++ ["z"])%list))])
            200).
Proof.
  intros db.
  assert (Hv : Forall (λ b, Text.utf8_valid b = true) (["a"; "b"; "c"] ++ ["z"])%list).
  { repeat constructor. }
  split; [reflexivity|]. split; [exact Hv|]. split; [discriminate|].
  apply (pushes_then_read "L" ["a"; "b"; "c"] ["z"] db); [reflexivity|exact Hv|discriminate].
Defined.

(** The members answered are the set: after [/set/add/<key>/m] on a key that
    is missing or holds a set of text members, [/set/view/<key>] lists [m]
    and the members the set had, each once, and nothing else. *)
Theorem view_set_members (key m : string) (members : gset string)
    (db : gmap string rvalue) :
  set_at key db = Some members →
  (∀ x, x ∈ members → Text.utf8_valid x = true) →
  Text.path_param m = true →
  let db' := store (serve (AddSetMember key m) db) in
  ∃ l, value (serve (ViewSet key) db') =
       Return (Response
                 (jsonify [("status", JStr "success"); ("key", JStr key);
                           ("members", JList (JStr <$> l))])
                 200) ∧
       NoDup l ∧ ∀ x, x ∈ l ↔ x = m ∨ x ∈ members.
Proof.
  intros Hkey Hms Hm db'.
  pose proof (add_set_member_at key m members db Hkey) as Hat. fold db' in Hat.
  exists (elements ({[m]} ∪ members)). split; [|split].
  - rewrite (serve_view_set key _ db' Hat); [reflexivity| |].
    + intros He. apply (not_elem_of_empty (C := gset string) m).
      rewrite <- He. apply elem_of_union_l, elem_of_singleton. reflexivity.
    + intros x [->%elem_of_singleton|Hx]%elem_of_union; auto using path_param_text.
  - apply NoDup_elements.
  - intros x. rewrite elem_of_elements, elem_of_union, elem_of_singleton. reflexivity.
Qed.

Lemma view_set_members_witness :
  let db : gmap string rvalue := {[ "S" := RSet {[ "a" ]} ]} in
  set_at "S" db = Some {[ "a" ]} ∧
  (∀ x : string, x ∈ ({[ "a" ]} : gset string) → Text.utf8_valid x = true) ∧
  Text.path_param "m" = true ∧
  ∃ l, value (serve (ViewSet "S") (store (serve (AddSetMember "S" "m") db))) =
       Return (Response
                 (jsonify [("status", JStr "success"); ("key", JStr "S");
                           ("members", JList (JStr <$> l))])
                 200) ∧
       NoDup l ∧ ∀ x, x ∈ l ↔ x = "m" ∨ x ∈ ({[ "a" ]} : gset string).
Proof.
  intros db.
  assert (Ha : ∀ x : string, x ∈ ({[ "a" ]} : gset string) → Text.utf8_valid x = true).
  { intros x ->%elem_of_singleton. reflexivity. }
  split; [reflexivity|]. split; [exact Ha|]. split; [reflexivity|].
  apply (view_set_members "S" "m" {[ "a" ]} db); [reflexivity|exact Ha|reflexivity].
Defined.

#[local] Instance zset_le_total : Total Redis.zset_le.
Proof.
  intros [x sx] [y sy]. unfold Redis.zset_le, Redis.zset_leb. cbn.
  destruct (Z.ltb_spec sx sy); [left; reflexivity|].
  destruct (Z.ltb_spec sy sx); [right; reflexivity|].
  assert (sx = sy) as -> by lia. rewrite Z.eqb_refl. cbn.
  apply String.leb_total.
Qed.

Lemma zset_le_score x y : Redis.zset_le x y → x.2 ≤ y.2.
Proof.
  unfold Redis.zset_le, Redis.zset_leb.
  intros [H|[H _]%andb_true_iff]%orb_true_iff; lia.
Qed.

(** The members of a sorted set are answered by ascending score, one entry
    per member, each with the score last given to it: after
    [/zset/<key>/m/score], [m] is listed with [score], whatever score it had
    before. *)
Theorem view_zset_sorted (key m : string) (score : Z) (scores : gmap string Z)
    (db : gmap string rvalue) :
  zset_at key db = Some scores →
  (∀ x, is_Some (scores !! x) → Text.utf8_valid x = true) →
  Text.path_param m = true →
  0 ≤ score < 2 ^ 53 →
  let db' := store (serve (AddZsetMember key m score) db) in
  ∃ l, value (serve (ViewZset key) db') =
       Return (Response
                 (jsonify [("status", JStr "success"); ("key", JStr key);
                           ("members", JList (format_item <$> l))])
                 200) ∧
       StronglySorted Z.le (l.*2) ∧
       NoDup (l.*1) ∧
       ∀ x s, (x, s) ∈ l ↔ <[m := score]> scores !! x = Some s.
Proof.
  intros Hkey Hms Hm Hs db'.
  assert (Hat : zset_at key db' = Some (<[m := score]> scores)).
  { subst db'. rewrite (serve_add_zset_member key m score scores db Hkey) by lia.
    cbn [store]. unfold zset_at. rewrite lookup_insert_eq. reflexivity. }
  exists (merge_sort Redis.zset_le (map_to_list (<[m := score]> scores))).
  split; [|split; [|split]].
  - rewrite (serve_view_zset key _ db' Hat); [reflexivity| |].
    + apply insert_non_empty.
    + intros x [sc Hx]. destruct (decide (m = x)) as [<-|Hne].
      * apply path_param_text, Hm.
      * rewrite lookup_insert_ne in Hx by exact Hne. apply Hms. eauto.
  - apply Sorted_StronglySorted; [apply _|].
    apply Sorted_fmap with (R1 := Redis.zset_le); [apply zset_le_score|].
    apply Sorted_merge_sort, _.
  - rewrite merge_sort_Permutation. apply NoDup_fst_map_to_list.
  - intros x s. rewrite merge_sort_Permutation. apply elem_of_map_to_list.
Qed.

Lemma view_zset_sorted_witness :
  let db : gmap string rvalue := {[ "Z" := RZSet {[ "p" := 7 ]} ]} in
  zset_at "Z" db = Some {[ "p" := 7 ]} ∧
  (∀ x : string, is_Some (({[ "p" := 7 ]} : gmap string Z) !! x) →
                 Text.utf8_valid x = true) ∧
  Text.path_param "p" = true ∧ 0 ≤ 5 < 2 ^ 53 ∧
  ∃ l, value (serve (ViewZset "Z") (store (serve (AddZsetMember "Z" "p" 5) db))) =
       Return (Response
                 (jsonify [("status", JStr "success"); ("key", JStr "Z");
                           ("members", JList (format_item <$> l))])
                 200) ∧
       StronglySorted Z.le (l.*2) ∧
       NoDup (l.*1) ∧
       ∀ x s, (x, s) ∈ l ↔ <["p" := 5]> ({[ "p" := 7 ]} : gmap string Z) !! x = Some s.
Proof.
  intros db.
  assert (Ha : ∀ x : string, is_Some (({[ "p" := 7 ]} : gmap string Z) !! x) →
                             Text.utf8_valid x = true).
  { intros x [sc Hx]. apply lookup_singleton_Some in Hx as [<- _]. reflexivity. }
  split; [reflexivity|]. split; [exact Ha|].
  split; [reflexivity|]. split; [lia|].
  apply (view_zset_sorted "Z" "p" 5 {[ "p" := 7 ]} db);
    [reflexivity|exact Ha|reflexivity|lia].
Defined.

(** ** Repeating a request *)

(** On a key that holds something else, the three requests leave the store
    as it is. *)
Lemma add_set_member_not_a_set key v db :
  set_at key db = None → store (serve (AddSetMember key v) db) = db.
Proof.
  unfold set_at. destruct (db !! key) as [[]|] eqn:Hk; try discriminate; intros _;
    unfold serve, view_function, add_set_member, try_except, mbind, M_bind,
      Redis.sadd, Redis.command;
    rewrite Hk; reflexivity.
Qed.

Lemma set_hash_field_not_a_hash key f v db :
  hash_at key db = None → store (serve (SetHashField key f v) db) = db.
Proof.
  unfold hash_at. destruct (db !! key) as [[]|] eqn:Hk; try discriminate; intros _;
    unfold serve, view_function, set_hash_field, try_except, mbind, M_bind,
      Redis.hset, Redis.command;
    rewrite Hk; reflexivity.
Qed.

Lemma add_zset_member_not_a_zset key m score db :
  zset_at key db = None → store (serve (AddZsetMember key m score) db) = db.
Proof.
  unfold zset_at. destruct (db !! key) as [[]|] eqn:Hk; try discriminate; intros _;
    unfold serve, view_function, add_zset_member, try_except, mbind, M_bind,
      Redis.zadd, Redis.command;
    destruct (Redis.double_of_int score); rewrite ?Hk; reflexivity.
Qed.

(** [add_zset_member] on a sorted set, for any score that is a double. *)
Lemma serve_add_zset_member_rounded key m score sc scores db :
  zset_at key db = Some scores → Redis.double_of_int score = Some sc →
  serve (AddZsetMember key m score) db =
  Outcome
    (Return (Response
               (jsonify [("status", JStr "success");
                         ("message", JStr ("Added " +:+ m +:+ " with score " +:+
                                           Text.str_of_int score +:+ " to sorted set " +:+ key))])
               200))
    (<[key := RZSet (<[m := sc]> scores)]> db)
    [Log INFO ("Added to sorted set " +:+ key +:+ ": " +:+ m +:+
               " with score " +:+ Text.str_of_int score)].
Proof.
  intros [[Hk ->]|Hk]%zset_at_inv Hs;
    unfold serve, view_function, add_zset_member, try_except, mbind, M_bind,
      Redis.zadd, Redis.command;
    rewrite Hs, Hk; reflexivity.
Qed.

Lemma zadd_bad_score key m score db :
  Redis.double_of_int score = None →
  store (serve (AddZsetMember key m score) db) = db.
Proof.
  intros Hs.
  unfold serve, view_function, add_zset_member, try_except, mbind, M_bind,
    Redis.zadd, Redis.command.
  rewrite Hs. reflexivity.
Qed.

(** Issuing [/set], [/set/add], [/hash] or [/zset] a second time with the
    same parameters changes nothing: the second request gets the same answer
    as the first and leaves the store the first one left. (Not so [/list
    push] and [/visits], which add to what is there.) *)
Theorem repeat_same (rq : request) (db : gmap string rvalue) :
  repeatable rq = true →
  let db' := store (serve rq db) in
  value (serve rq db') = value (serve rq db) ∧ store (serve rq db') = db'.
Proof.
  intros Hr db'. subst db'.
  assert (Hsame : store (serve rq db) = db →
            value (serve rq (store (serve rq db))) = value (serve rq db) ∧
            store (serve rq (store (serve rq db))) = store (serve rq db)).
  { intros H. rewrite !H. split; reflexivity. }
  destruct rq as [|key v| | | |key v| |key fld v| |key member score| |];
    try discriminate Hr; clear Hr.
  - clear Hsame. rewrite !serve_set_value. cbn [store value].
    rewrite insert_insert_eq. split; reflexivity.
  - destruct (set_at key db) as [members|] eqn:Hs.
    + clear Hsame. rewrite (serve_add_set_member key v members db Hs).
      cbn [store value].
      rewrite (serve_add_set_member key v ({[v]} ∪ members)).
      * cbn [store value].
        rewrite insert_insert_eq, (assoc_L (∪)), (idemp_L (∪)). split; reflexivity.
      * unfold set_at. rewrite lookup_insert_eq. reflexivity.
    + apply Hsame, add_set_member_not_a_set, Hs.
  - destruct (hash_at key db) as [fields|] eqn:Hs.
    + clear Hsame. rewrite (serve_set_hash_field key fld v fields db Hs).
      cbn [store value].
      rewrite (serve_set_hash_field key fld v (<[fld := v]> fields)).
      * cbn [store value].
        rewrite !insert_insert_eq. split; reflexivity.
      * unfold hash_at. rewrite lookup_insert_eq. reflexivity.
    + apply Hsame, set_hash_field_not_a_hash, Hs.
  - destruct (Redis.double_of_int score) as [sc|] eqn:Hsc;
      [|apply Hsame, zadd_bad_score, Hsc].
    destruct (zset_at key db) as [scores|] eqn:Hs.
    + clear Hsame.
      rewrite (serve_add_zset_member_rounded key member score sc scores db Hs Hsc).
      cbn [store value].
      rewrite (serve_add_zset_member_rounded key member score sc (<[member := sc]> scores));
        [|unfold zset_at; rewrite lookup_insert_eq; reflexivity|exact Hsc].
      cbn [store value].
      rewrite !insert_insert_eq. split; reflexivity.
    + apply Hsame, add_zset_member_not_a_zset, Hs.
Qed.

Lemma repeat_same_witness :
  let rq := AddSetMember "S" "m" in
  let db : gmap string rvalue := {[ "S" := RSet {[ "a" ]} ]} in
  repeatable rq = true ∧
  value (serve rq (store (serve rq db))) = value (serve rq db) ∧
  store (serve rq (store (serve rq db))) = store (serve rq db).
Proof.
  intros rq db. split; [reflexivity|].
  apply (repeat_same rq db). reflexivity.
Defined.
